(** * pymks: the MKS localization model

    A shallow embedding of [pymks/mks_localization_model.py]
    (class [MKSLocalizationModel]) and the properties of its
    constructor, [fit], [predict], [coeff], [resize_coeff] and
    [_reshape_feature].

    NumPy arrays are a shape together with the row-major (C order) buffer.
    Python objects that are shared by reference (the basis instances) live
    in a store indexed by locations; the model instance, the store and the
    record of the calls made to the methods of the basis and of the filter
    form the state that the methods thread.  Exceptions are values of [exn]; a method that raises leaves
    the state as it was at the point of the [raise]. *)

From stdpp Require Import functions strings list.
From Stdlib Require Import ZArith Lia.

Set Default Proof Using "Type".

(** ** Exceptions and outcomes *)

(** The last three constructors stand for any exception raised inside a
    collaborator (the basis, the filter, [scipy.linalg.lstsq]); the others
    are raised by the model's own code or by NumPy indexing and reshaping. *)
Inductive exn : Type :=
| RuntimeError (msg : string)
| AttributeError (msg : string)
| ValueError (msg : string)
| IndexError (msg : string)
| BasisError (msg : string)
| FilterError (msg : string)
| LstsqError (msg : string).

Inductive outcome (A : Type) : Type :=
| Returned (a : A)
| Raised (e : exn).
Arguments Returned {A} a.
Arguments Raised {A} e.

Global Instance outcome_ret : MRet outcome := λ A a, Returned a.

Global Instance outcome_bind : MBind outcome := λ A B f m,
  match m with
  | Returned a => f a
  | Raised e => Raised e
  end.

(** A [for] loop that threads an accumulator and stops at the first
    exception. *)
Fixpoint for_loop {A S : Type} (body : S → A → outcome S) (l : list A) (s : S)
  : outcome S :=
  match l with
  | [] => Returned s
  | x :: l' => s' ← body s x; for_loop body l' s'
  end.

(** ** NumPy arrays *)

Module NumPy.

Record ndarray (A : Type) : Type :=
  mk_ndarray { shape : list nat; data : list A }.
Arguments mk_ndarray {A} shape data.
Arguments shape {A} _.
Arguments data {A} _.

(** [np.prod] of a shape: the number of elements. *)
Definition numel (s : list nat) : nat := foldr Nat.mul 1 s.

Definition ndim {A} (X : ndarray A) : nat := length (shape X).

(** Every array NumPy builds has a buffer of [numel shape] elements. *)
Definition wf {A} (X : ndarray A) : Prop :=
  length (data X) = numel (shape X).

(** [X.reshape(new_shape)] for a shape of non-negative integers: the
    buffer is kept, and the call raises [ValueError] when the number of
    elements differs. *)
Definition reshape {A} (X : ndarray A) (new_shape : list nat)
  : outcome (ndarray A) :=
  if decide (numel new_shape = numel (shape X))
  then Returned (mk_ndarray new_shape (data X))
  else Raised (ValueError "cannot reshape array").

(** [np.zeros(shape)], for the zero of the element type. *)
Definition zeros {A} (zero : A) (s : list nat) : ndarray A :=
  mk_ndarray s (replicate (numel s) zero).

(** [a[None]]: a new leading axis of length one. *)
Definition add_axis {A} (X : ndarray A) : ndarray A :=
  mk_ndarray (1 :: shape X) (data X).

(** [a[1:]]: the first axis without its first entry (a 0-d array cannot
    be sliced: [IndexError]). *)
Definition drop_first {A} (X : ndarray A) : outcome (ndarray A) :=
  match shape X with
  | [] => Raised (IndexError "too many indices for array")
  | n :: s => Returned (mk_ndarray ((n - 1) :: s) (drop (numel s) (data X)))
  end.

(** Offset of a multi-index in C order. *)
Fixpoint ravel (s idx : list nat) : nat :=
  match s, idx with
  | _ :: s', i :: idx' => i * numel s' + ravel s' idx'
  | _, _ => 0
  end.

(** A multi-index is valid for a shape when it has one entry per axis,
    each below the length of its axis. *)
Definition valid_index (s idx : list nat) : Prop :=
  Forall2 (λ i n, i < n) idx s.

Global Instance valid_index_dec s idx : Decision (valid_index s idx).
Proof. unfold valid_index. apply _. Defined.

(** [a[i, j, ...]] with one integer per axis: a scalar. *)
Definition getitem {A} (X : ndarray A) (idx : list nat) : outcome A :=
  if decide (valid_index (shape X) idx)
  then match data X !! ravel (shape X) idx with
       | Some x => Returned x
       | None => Raised (IndexError "index out of bounds")
       end
  else Raised (IndexError "index out of bounds").

(** [a[i, j, ...]] with integers for the leading axes only: the
    sub-array over the remaining axes. *)
Definition subarray {A} (X : ndarray A) (idx : list nat)
  : outcome (ndarray A) :=
  let outer := take (length idx) (shape X) in
  let inner := drop (length idx) (shape X) in
  if decide (valid_index outer idx)
  then Returned (mk_ndarray inner
         (take (numel inner) (drop (ravel outer idx * numel inner) (data X))))
  else Raised (IndexError "index out of bounds").

(** [a[i, j, ...] = x] with one integer per axis. *)
Definition setitem {A} (X : ndarray A) (idx : list nat) (x : A)
  : outcome (ndarray A) :=
  if decide (valid_index (shape X) idx)
  then Returned (mk_ndarray (shape X) (<[ravel (shape X) idx := x]> (data X)))
  else Raised (IndexError "index out of bounds").

(** [np.ndindex(shape)]: all the multi-indices, last axis fastest. *)
Fixpoint ndindex (s : list nat) : list (list nat) :=
  match s with
  | [] => [[]]
  | n :: s' => i ← seq 0 n; (i ::.) <$> ndindex s'
  end.

(** Broadcasting a value to a one-dimensional target of [m] entries, as an
    assignment to a slice does: leading axes of length one are ignored,
    and a single element is repeated. *)
Fixpoint strip_ones (s : list nat) : list nat :=
  match s with
  | 1 :: s' => strip_ones s'
  | _ => s
  end.

Definition broadcast_to {A} (x : ndarray A) (m : nat) : outcome (list A) :=
  if decide (strip_ones (shape x) = [m]) then Returned (data x)
  else match strip_ones (shape x), data x with
       | [], [v] => Returned (replicate m v)
       | _, _ => Raised (ValueError "could not broadcast input array")
       end.

End NumPy.
Import NumPy.

(** ** Python tuples and slices *)

(** [t[-1]] of a tuple: the last entry, [IndexError] on the empty tuple. *)
Definition tuple_last (t : list nat) : outcome nat :=
  match last t with
  | Some x => Returned x
  | None => Raised (IndexError "tuple index out of range")
  end.

(** [t[0]]. *)
Definition tuple_first (t : list nat) : outcome nat :=
  match t with
  | x :: _ => Returned x
  | [] => Raised (IndexError "tuple index out of range")
  end.

(** [t[1:]] and [t[1:-1]]: slicing a tuple never raises. *)
Definition tuple_from1 (t : list nat) : list nat := tail t.
Definition tuple_from1_to_last (t : list nat) : list nat :=
  removelast (tail t).

Module PySlice.

(** [slice(start, stop, step)]; [None] is an omitted bound. *)
Record slice : Type :=
  mk_slice { start : option Z; stop : option Z; step : option Z }.

(** [slice(None)], the [s0 = (slice(None),)] of [fit]. *)
Definition slice_None : slice := mk_slice None None None.

(** [slice(stop)], as in [slice(-1)]. *)
Definition slice_to (b : Z) : slice := mk_slice None (Some b) None.

(** [slice.indices(len)]: the bounds clipped to an axis of length [len]. *)
Definition indices (sl : slice) (len : Z) : outcome (Z * Z * Z) :=
  let st := default 1%Z (step sl) in
  if decide (st = 0)%Z then Raised (ValueError "slice step cannot be zero")
  else
    let lower := (if decide (st < 0) then -1 else 0)%Z in
    let upper := (if decide (st < 0) then len - 1 else len)%Z in
    let clip v :=
      (if decide (v < 0) then Z.max (v + len) lower else Z.min v upper)%Z in
    let a := match start sl with
             | None => if decide (st < 0)%Z then upper else lower
             | Some v => clip v
             end in
    let b := match stop sl with
             | None => if decide (st < 0)%Z then lower else upper
             | Some v => clip v
             end in
    Returned (a, b, st).

(** [len(range(a, b, st))]. *)
Definition range_len (a b st : Z) : Z :=
  (if decide (0 < st) then
     if decide (a < b) then (b - a - 1) `div` st + 1 else 0
   else
     if decide (b < a) then (a - b - 1) `div` (- st) + 1 else 0)%Z.

(** The positions an axis of length [n] is read at through the slice. *)
Definition positions (sl : slice) (n : nat) : outcome (list nat) :=
  '(a, b, st) ← indices sl (Z.of_nat n);
  Returned ((λ i : nat, Z.to_nat (a + Z.of_nat i * st))
              <$> seq 0 (Z.to_nat (range_len a b st))).

End PySlice.
Import PySlice.

(** [a[s0 + ijk + s1]]: a slice on the first axis, integers on the middle
    axes and a slice on the last one; the result is two-dimensional.
    The index must have one entry per axis. *)
Definition getitem_slice_ints_slice {A} (X : ndarray A)
    (s0 : slice) (ijk : list nat) (s1 : slice) : outcome (ndarray A) :=
  match shape X with
  | n :: rest =>
      match last rest with
      | Some H =>
          if decide (length ijk + 2 = ndim X) then
            rows ← positions s0 n;
            cols ← positions s1 H;
            entries ← mapM (λ r, mapM (λ h, getitem X (r :: ijk ++ [h])) cols)
                           rows;
            Returned (mk_ndarray [length rows; length cols] (concat entries))
          else Raised (IndexError "too many indices for array")
      | None => Raised (IndexError "too many indices for array")
      end
  | [] => Raised (IndexError "too many indices for array")
  end.

(** [a[s0 + ijk]]: a slice on the first axis and integers on the next
    ones; the axes that are left, if any, are kept whole. *)
Definition getitem_slice_ints {A} (X : ndarray A)
    (s0 : slice) (ijk : list nat) : outcome (ndarray A) :=
  match shape X with
  | n :: _ =>
      rows ← positions s0 n;
      subs ← mapM (λ r, subarray X (r :: ijk)) rows;
      Returned (mk_ndarray (length rows :: drop (S (length ijk)) (shape X))
                           (concat (data <$> subs)))
  | [] => Raised (IndexError "too many indices for array")
  end.

(** [a[ijk + s1] = x]: integers on all the axes but the last, a slice on
    the last one; [x] is broadcast to the selected positions. *)
Definition setitem_ints_slice {A} (X : ndarray A)
    (ijk : list nat) (s1 : slice) (x : ndarray A) : outcome (ndarray A) :=
  match last (shape X) with
  | Some H =>
      if decide (length ijk + 1 = ndim X) then
        cols ← positions s1 H;
        vals ← broadcast_to x (length cols);
        for_loop (λ X' hv, setitem X' (ijk ++ [hv.1]) hv.2) (zip cols vals) X
      else Raised (IndexError "too many indices for array")
  | None => Raised (IndexError "too many indices for array")
  end.

(** ** The objects: basis, filter, model *)

(** Locations of the basis instances in the store. *)
Definition loc : Type := nat.

(** Modelled from the spec: the basis classes ([pymks.bases]) are not part
    of this file.  A basis instance is parameterized by its class,
    [n_states] and a [domain]; [_axes] is the per-instance attribute that
    the doctest of [resize_coeff] assigns, unset on a new instance. *)
Record basis_obj (Domain : Type) : Type :=
  mk_basis {
    b_class : string;
    b_n_states : nat;
    b_domain : Domain;
    _axes : option (list nat) }.
Arguments mk_basis {Domain} _ _ _ _.
Arguments b_class {Domain} _.
Arguments b_n_states {Domain} _.
Arguments b_domain {Domain} _.
Arguments _axes {Domain} _.

(** [cls(n_states, domain)]. *)
Definition basis_new {Domain} (cls : string) (n : nat) (d : Domain)
  : basis_obj Domain :=
  mk_basis cls n d None.

(** Modelled from the spec: the class [Filter] ([pymks.filter]) is not
    part of this file.  A filter is constructed from the kernel, the basis,
    a shape and the job count, and stores the kernel as [_Fkernel] (read by
    [predict] and by the doctest of [fit]). *)
Record filter (C : Type) : Type :=
  Filter {
    _Fkernel : ndarray C;
    f_basis : loc;
    f_shape : list nat;
    f_n_jobs : Z }.
Arguments Filter {C} _ _ _ _.
Arguments _Fkernel {C} _.
Arguments f_basis {C} _.
Arguments f_shape {C} _.
Arguments f_n_jobs {C} _.

(** The attributes of an [MKSLocalizationModel] instance; [_filter] is
    absent until [fit] has set it ([hasattr(self, '_filter')]). *)
Record model (C Domain : Type) : Type :=
  mk_model {
    basis : loc;
    n_states : nat;
    domain : Domain;
    n_jobs : Z;
    _filter : option (filter C) }.
Arguments mk_model {C Domain} _ _ _ _ _.
Arguments basis {C Domain} _.
Arguments n_states {C Domain} _.
Arguments domain {C Domain} _.
Arguments n_jobs {C Domain} _.
Arguments _filter {C Domain} _.

(** The calls that are recorded, in order: the construction of a basis
    instance, and the methods [discretize], [_fftn], [convolve],
    [_frequency_2_real] and [resize].  The loop of [fit] reads
    [_get_basis_slice] and runs [lstsq] once per bin, and [fit] ends by
    constructing the filter; these are not recorded. *)
Inductive call (R C Domain : Type) : Type :=
| NewBasis (cls : string) (n : nat) (d : Domain) (l : loc)
| Discretize (l : loc) (X : ndarray R)
| Fftn (l : loc) (X : ndarray R) (jobs : Z)
| Convolve (f : filter C) (X : ndarray R)
| FrequencyToReal (f : filter C) (copy : bool)
| Resize (f : filter C) (size : list nat).
Arguments NewBasis {R C Domain} _ _ _ _.
Arguments Discretize {R C Domain} _ _.
Arguments Fftn {R C Domain} _ _ _.
Arguments Convolve {R C Domain} _ _.
Arguments FrequencyToReal {R C Domain} _ _.
Arguments Resize {R C Domain} _ _.

(** The state: the model instance [self], the store of basis instances
    with its next free location, and the recorded calls made so far. *)
Record state (R C Domain : Type) : Type :=
  mk_state {
    self : model C Domain;
    heap : loc → basis_obj Domain;
    next : loc;
    calls : list (call R C Domain) }.
Arguments mk_state {R C Domain} _ _ _ _.
Arguments self {R C Domain} _.
Arguments heap {R C Domain} _.
Arguments next {R C Domain} _.
Arguments calls {R C Domain} _.

(** ** The class [MKSLocalizationModel] *)

Section MKSLocalizationModel.

Context {R C Domain : Type}.

(** The complex zero of [np.zeros(..., dtype=np.complex)]. *)
Variable czero : C.

(** The collaborators.  A method of the basis may update the [_axes] of
    its own instance and fails with a message; [lstsq] is
    [scipy.linalg.lstsq(a, b)[0]]. *)
Variable discretize :
  basis_obj Domain → ndarray R → option (list nat) * (string + ndarray R).
Variable _fftn :
  basis_obj Domain → ndarray R → Z → option (list nat) * (string + ndarray C).
Variable _get_basis_slice : basis_obj Domain → list nat → slice → slice.
Variable lstsq : ndarray C → ndarray C → string + ndarray C.
Variable convolve : filter C → ndarray R → string + ndarray R.
Variable _frequency_2_real : filter C → bool → string + ndarray R.
Variable resize : filter C → list nat → string + filter C.

(** Methods: state passing with exceptions. *)
Definition method (A : Type) : Type :=
  state R C Domain → state R C Domain * outcome A.

Global Instance method_ret : MRet method := λ A a w, (w, Returned a).

Global Instance method_bind : MBind method := λ A B f m w,
  match m w with
  | (w', Returned a) => f a w'
  | (w', Raised e) => (w', Raised e)
  end.

Definition raise {A} (e : exn) : method A := λ w, (w, Raised e).

Definition lift {A} (o : outcome A) : method A := λ w, (w, o).

Definition get_self : method (model C Domain) := λ w, (w, Returned (self w)).

Definition deref (l : loc) : method (basis_obj Domain) :=
  λ w, (w, Returned (heap w l)).

Definition log (c : call R C Domain) : method unit :=
  λ w, (mk_state (self w) (heap w) (next w) (calls w ++ [c]), Returned tt).

(** [self.basis = l] and [self._filter = f]. *)
Definition set_basis (l : loc) : method unit :=
  λ w, let m := self w in
       (mk_state (mk_model l (n_states m) (domain m) (n_jobs m) (_filter m))
                 (heap w) (next w) (calls w), Returned tt).

Definition set_filter (f : filter C) : method unit :=
  λ w, let m := self w in
       (mk_state (mk_model (basis m) (n_states m) (domain m) (n_jobs m) (Some f))
                 (heap w) (next w) (calls w), Returned tt).

(** [cls(n_states, domain)]: a new instance at the next free location. *)
Definition new_basis (cls : string) (n : nat) (d : Domain) : method loc :=
  λ w, let l := next w in
       (mk_state (self w) (<[l := basis_new cls n d]> (heap w)) (S l)
                 (calls w ++ [NewBasis cls n d l]), Returned l).

(** A call of a method of the basis instance at [l]. *)
Definition call_basis {A}
    (f : basis_obj Domain → option (list nat) * (string + A)) (l : loc)
  : method A :=
  λ w, let b := heap w l in
       let '(ax, r) := f b in
       let b' := mk_basis (b_class b) (b_n_states b) (b_domain b) ax in
       (mk_state (self w) (<[l := b']> (heap w)) (next w) (calls w),
        match r with
        | inr a => Returned a
        | inl msg => Raised (BasisError msg)
        end).

Definition filter_result {A} (r : string + A) : method A :=
  lift (match r with
        | inr a => Returned a
        | inl msg => Raised (FilterError msg)
        end).

Definition lstsq_result {A} (r : string + A) : outcome A :=
  match r with
  | inr a => Returned a
  | inl msg => Raised (LstsqError msg)
  end.

(** [__init__(self, basis, n_states=None, n_jobs=1)], lines 76-81. *)
Definition __init__ (h : loc → basis_obj Domain)
    (basis : loc) (n_states : option nat) (n_jobs : Z) : model C Domain :=
  mk_model basis
           (match n_states with
            | None => b_n_states (h basis)
            | Some n => n
            end)
           (b_domain (h basis))
           n_jobs
           None.

(** The state in which a newly constructed model is [self]. *)
Definition constructed (h : loc → basis_obj Domain) (nxt : loc)
    (cs : list (call R C Domain))
    (basis : loc) (n_states : option nat) (n_jobs : Z) : state R C Domain :=
  mk_state (__init__ h basis n_states n_jobs) h nxt cs.

(** [_reshape_feature(self, X, size)], lines 265-268. *)
Definition _reshape_feature {A} (X : ndarray A) (size : list nat)
  : outcome (ndarray A) :=
  x_last ← tuple_last (shape X);
  s_last ← tuple_last size;
  let size :=
    if bool_decide (x_last `div` 2 + 1 = s_last)
       && bool_decide (ndim X - 1 = length size)
    then tuple_from1 (shape X)
    else size in
  n ← tuple_first (shape X);
  reshape X (n :: size).

(** The loop of [fit], lines 120-124: one least-squares solve per
    spatial-frequency bin, written into the slice the basis supplies. *)
Definition fit_bin (b : basis_obj Domain) (FX Fy : ndarray C)
    (Fkernel : ndarray C) (ijk : list nat) : outcome (ndarray C) :=
  let s0 := slice_None in
  let s1 := _get_basis_slice b ijk s0 in
  a ← getitem_slice_ints_slice FX s0 ijk s1;
  rhs ← getitem_slice_ints Fy s0 ijk;
  k ← lstsq_result (lstsq a rhs);
  setitem_ints_slice Fkernel ijk s1 k.

Definition fit_kernel (b : basis_obj Domain) (FX Fy : ndarray C)
  : outcome (ndarray C) :=
  let Fkernel := zeros czero (tuple_from1 (shape FX)) in
  for_loop (fit_bin b FX Fy) (ndindex (tuple_from1_to_last (shape FX))) Fkernel.

(** The solve of the bin [ijk] succeeds: the slice of the basis has a
    non-zero step, and [lstsq] returns, for the system of the bin, a
    vector with one entry per column. *)
Definition bin_solvable (b : basis_obj Domain) (FX Fy : ndarray C)
    (ijk : list nat) : Prop :=
  let s1 := _get_basis_slice b ijk slice_None in
  step s1 ≠ Some 0%Z
  ∧ ∀ a rhs,
      getitem_slice_ints_slice FX slice_None ijk s1 = Returned a →
      getitem_slice_ints Fy slice_None ijk = Returned rhs →
      ∃ k, lstsq a rhs = inr k ∧ shape k = drop 1 (shape a) ∧ wf k.

(** The kernel holds, at the bin [ijk], the least-squares solution of
    [FX[:, ijk, s1] · k = Fy[:, ijk]] on the positions of the slice [s1]
    of the basis, in order, and zero on the other positions of the
    local-state axis of length [H]. *)
Definition bin_solved (b : basis_obj Domain) (FX Fy Fkernel : ndarray C)
    (H : nat) (ijk : list nat) : Prop :=
  let s1 := _get_basis_slice b ijk slice_None in
  ∃ cols a rhs k,
    positions s1 H = Returned cols
    ∧ getitem_slice_ints_slice FX slice_None ijk s1 = Returned a
    ∧ getitem_slice_ints Fy slice_None ijk = Returned rhs
    ∧ lstsq a rhs = inr k
    ∧ (∀ j h, cols !! j = Some h →
         ∃ v, data k !! j = Some v
              ∧ getitem Fkernel (ijk ++ [h]) = Returned v)
    ∧ (∀ h, h < H → h ∉ cols →
         getitem Fkernel (ijk ++ [h]) = Returned czero).

(** [fit(self, X, y, size=None)], lines 110-112: the optional reshape. *)
Definition reshape_inputs (X y : ndarray R) (size : option (list nat))
  : outcome (ndarray R * ndarray R) :=
  match size with
  | Some size =>
      y ← _reshape_feature y size;
      X ← _reshape_feature X size;
      mret (X, y)
  | None => mret (X, y)
  end.

(** Lines 113-116: the two checks on the shapes. *)
Definition check_shapes (X y : ndarray R) : outcome unit :=
  if bool_decide (¬ 1 < length (shape y))
  then Raised (RuntimeError "The shape of y is incorrect.")
  else if bool_decide (shape y ≠ shape X)
  then Raised (RuntimeError "X and y must be the same shape.")
  else Returned tt.

(** Lines 117-126: discretize, transform, solve every bin, and build the
    filter; [l] is [self.basis] and [jobs] is [self.n_jobs]. *)
Definition calibrate (l : loc) (jobs : Z) (X y : ndarray R) : method unit :=
  log (Discretize l X);;
  X_ ← call_basis (λ b, discretize b X) l;
  log (Fftn l X_ jobs);;
  FX ← call_basis (λ b, _fftn b X_ jobs) l;
  log (Fftn l y jobs);;
  Fy ← call_basis (λ b, _fftn b y jobs) l;
  b ← deref l;
  Fkernel ← lift (fit_kernel b FX Fy);
  y1 ← lift (drop_first y);
  set_filter (Filter (add_axis Fkernel) l (shape y1) jobs).

(** Line 109: [self.basis = self.basis.__class__(self.n_states,
    self.domain)]. *)
Definition recreate_basis : method loc :=
  m ← get_self;
  old ← deref (basis m);
  l ← new_basis (b_class old) (n_states m) (domain m);
  set_basis l;;
  mret l.

(** [fit(self, X, y, size=None)], lines 109-126. *)
Definition fit (X y : ndarray R) (size : option (list nat)) : method unit :=
  l ← recreate_basis;
  Xy ← lift (reshape_inputs X y size);
  lift (check_shapes Xy.1 Xy.2);;
  m ← get_self;
  calibrate l (n_jobs m) Xy.1 Xy.2.

(** The property [coeff], line 133. *)
Definition coeff : method (ndarray R) :=
  m ← get_self;
  match _filter m with
  | None =>
      raise (AttributeError
               "'MKSLocalizationModel' object has no attribute '_filter'")
  | Some f =>
      log (FrequencyToReal f true);;
      k ← filter_result (_frequency_2_real f true);
      lift (subarray k [0])
  end.

(** [predict(self, X)], lines 166-171. *)
Definition predict (X : ndarray R) : method (ndarray R) :=
  m ← get_self;
  match _filter m with
  | None => raise (AttributeError "fit() method must be run before predict().")
  | Some f =>
      let y_pred_shape := shape X in
      X ← lift (_reshape_feature X (tuple_from1_to_last (shape (_Fkernel f))));
      log (Discretize (basis m) X);;
      X_ ← call_basis (λ b, discretize b X) (basis m);
      log (Convolve f X_);;
      r ← filter_result (convolve f X_);
      lift (reshape r y_pred_shape)
  end.

(** [resize_coeff(self, size)], line 213; the filter is resized in
    place. *)
Definition resize_coeff (size : list nat) : method unit :=
  m ← get_self;
  match _filter m with
  | None =>
      raise (AttributeError
               "'MKSLocalizationModel' object has no attribute '_filter'")
  | Some f =>
      log (Resize f size);;
      f' ← filter_result (resize f size);
      set_filter f'
  end.

End MKSLocalizationModel.

(** ** Vocabulary of the specification *)

(** The state right after line 109 of [fit]: a new basis instance of the
    class of the old one sits at the next free location, and [self.basis]
    refers to it. *)
Definition recreated {R C Domain} (w : state R C Domain) : state R C Domain :=
  let m := self w in
  let cls := b_class (heap w (basis m)) in
  mk_state
    (mk_model (next w) (n_states m) (domain m) (n_jobs m) (_filter m))
    (<[next w := basis_new cls (n_states m) (domain m)]> (heap w))
    (S (next w))
    (calls w ++ [NewBasis cls (n_states m) (domain m) (next w)]).

(** The shape errors of the specification: the two [RuntimeError]s that
    [fit] raises, and the [ValueError] of a reshape that cannot be done. *)
Definition ShapeError (e : exn) : Prop :=
  e = RuntimeError "The shape of y is incorrect."
  ∨ e = RuntimeError "X and y must be the same shape."
  ∨ e = ValueError "cannot reshape array".

(** The spatial size [_reshape_feature] reshapes to: [size], or the
    array's own spatial shape when its last axis has the half-spectrum
    length of [size[-1]] and the ranks agree. *)
Definition target_size {A} (X : ndarray A) (size : list nat) : list nat :=
  if bool_decide (default 0 (last (shape X)) `div` 2 + 1 = default 0 (last size)
                  ∧ ndim X - 1 = length size)
  then tail (shape X)
  else size.

(** The shape of an input of [fit] after the optional reshape. *)
Definition new_shape {A} (X : ndarray A) (size : option (list nat))
  : list nat :=
  match size with
  | None => shape X
  | Some sz => default 0 (head (shape X)) :: target_size X sz
  end.

(** The reshape preserves the number of elements of every sample. *)
Definition count_preserved {A} (X : ndarray A) (size : option (list nat))
  : Prop :=
  match size with
  | None => True
  | Some sz => numel (tail (shape X)) = numel (target_size X sz)
  end.

Global Instance count_preserved_dec {A} (X : ndarray A) size :
  Decision (count_preserved X size).
Proof. destruct size; cbn; apply _. Defined.

(** The three conditions under which the validation of [fit] fails. *)
Definition shapes_rejected {A} (X y : ndarray A) (size : option (list nat))
  : Prop :=
  (¬ count_preserved y size ∨ ¬ count_preserved X size)
  ∨ length (new_shape y size) = 1
  ∨ new_shape X size ≠ new_shape y size.

(** [o] raises only exceptions in [P]. *)
Definition raises_only {A} (P : exn → Prop) (o : outcome A) : Prop :=
  ∀ e, o = Raised e → P e.

(** The exceptions of the loop of [fit]: indexing, broadcasting, a slice
    with step zero, and the solver's own. *)
Definition solve_exn (e : exn) : Prop :=
  match e with
  | IndexError _ | LstsqError _ => True
  | ValueError msg => msg ≠ "cannot reshape array"
  | _ => False
  end.

(** ** The filter's transforms and resize *)

Module FilterModel.

Section Resize.

Context {R C : Type}.

(** The real zero that pads a kernel. *)
Variable rzero : R.

(** The numeric transforms of the filter: from the stored frequency kernel
    to the real-space, origin-centred kernel, and back. *)
Variable to_real : ndarray C → ndarray R.
Variable to_frequency : ndarray R → ndarray C.

(** [n] consecutive blocks of [m] entries. *)
Fixpoint chunks {A} (m n : nat) (l : list A) : list (list A) :=
  match n with
  | 0 => []
  | S n' => take m l :: chunks m n' (drop m l)
  end.

(** One axis, from [n] to [n'] entries: zero-fill on both sides of the
    footprint, or drop on both sides.  Of [p] entries added or dropped,
    [p - p // 2] are before the footprint and [p // 2] after it (the
    doctest of [resize_coeff]: 5 rows to 10 is 3 before and 2 after,
    4 columns to 7 is 2 before and 1 after). *)
Definition resize_list {A} (z : A) (n n' : nat) (l : list A) : list A :=
  if decide (n ≤ n') then
    let p := n' - n in
    replicate (p - p `div` 2) z ++ l ++ replicate (p `div` 2) z
  else
    let p := n - n' in
    take n' (drop (p - p `div` 2) l).

(** The shape after the leading axes are resized to [size]. *)
Fixpoint resized_shape (s size : list nat) : list nat :=
  match s, size with
  | _ :: s', n' :: size' => n' :: resized_shape s' size'
  | _, _ => s
  end.

(** All the axes at once, on the row-major buffer: the blocks along the
    first axis are resized one by one on their own axes, and the list of
    blocks is padded with zero blocks or truncated. *)
Fixpoint resize_nd (s size : list nat) (d : list R) : list R :=
  match s, size with
  | n :: s', n' :: size' =>
      let blocks := resize_nd s' size' <$> chunks (numel s') n d in
      let zero_block := replicate (numel (resized_shape s' size')) rzero in
      concat (resize_list zero_block n n' blocks)
  | _, _ => d
  end.

Definition resize_array (k : ndarray R) (target : list nat) : ndarray R :=
  mk_ndarray (resized_shape (shape k) target)
             (resize_nd (shape k) target (data k)).

(** Modelled from the spec: [Filter._frequency_2_real] is not part of this
    file.  It converts the stored kernel to its real-space, origin-centred
    representation. *)
Definition _frequency_2_real (f : filter C) (copy : bool)
  : string + ndarray R :=
  inr (to_real (_Fkernel f)).

(** Modelled from the spec: [Filter.resize] is not part of this file.  It
    changes the real-space support of the kernel to [size] by
    inverse-transforming, zero-padding or truncating symmetrically around
    the footprint of the kernel, and transforming forward again; the
    sample axis and the local-state axis are unchanged, and only the
    stored kernel is replaced. *)
Definition resize (f : filter C) (size : list nat) : string + filter C :=
  let k := to_real (_Fkernel f) in
  let target :=
    take 1 (shape k) ++ size ++ drop (length (shape k) - 1) (shape k) in
  inr (Filter (to_frequency (resize_array k target))
              (f_basis f) (f_shape f) (f_n_jobs f)).

End Resize.

End FilterModel.

(** ** A concrete instance

    Integer scalars and simple collaborators, on which the methods can be
    run: the discretization repeats each value once per local state, the
    transform is the identity, the basis takes every state at the zero bin
    and all but the last elsewhere, and the solver returns a vector of
    sevens with one entry per column. *)

Module Example.

Definition discretize (b : basis_obj (list Z)) (X : ndarray Z)
  : option (list nat) * (string + ndarray Z) :=
  (Some (seq 1 (ndim X - 1)),
   inr (mk_ndarray (shape X ++ [b_n_states b])
                   (x ← data X; replicate (b_n_states b) x))).

Definition _fftn (b : basis_obj (list Z)) (X : ndarray Z) (jobs : Z)
  : option (list nat) * (string + ndarray Z) :=
  (_axes b, inr X).

Definition _get_basis_slice (b : basis_obj (list Z)) (ijk : list nat)
    (s0 : slice) : slice :=
  if bool_decide (Forall (λ i, i = 0) ijk) then s0 else slice_to (-1).

Definition lstsq (a rhs : ndarray Z) : string + ndarray Z :=
  inr (mk_ndarray (drop 1 (shape a)) (replicate (numel (drop 1 (shape a))) 7%Z)).

Definition convolve (f : filter Z) (X : ndarray Z) : string + ndarray Z :=
  inr X.

(** A store with a three-state basis everywhere, and a model constructed
    on the basis at location 0 with [n_states=2]. *)
Definition heap0 : loc → basis_obj (list Z) :=
  λ _, mk_basis "PrimitiveBasis" 3 [0; 1]%Z None.

Definition w0 : state Z Z (list Z) := constructed heap0 1 [] 0 (Some 2) 1.

Definition fit := fit (R:=Z) 0%Z discretize _fftn _get_basis_slice lstsq.

(** [np.arange(4).reshape((1, 2, 2))] and [np.arange(4)]. *)
Definition X122 : ndarray Z := mk_ndarray [1; 2; 2] [0; 1; 2; 3]%Z.
Definition y4 : ndarray Z := mk_ndarray [4] [0; 1; 2; 3]%Z.
Definition y14 : ndarray Z := mk_ndarray [1; 4] [0; 1; 2; 3]%Z.

(** Transformed arrays for one sample, two bins and two local states. *)
Definition FX122 : ndarray Z := mk_ndarray [1; 2; 2] [1; 2; 3; 4]%Z.
Definition Fy12 : ndarray Z := mk_ndarray [1; 2] [5; 6]%Z.

(** A fitted model whose kernel has spatial size [(2,)] and one state. *)
Definition kernel_121 : filter Z :=
  Filter (mk_ndarray [1; 2; 1] [3; 4]%Z) 0 [1; 2] 1.

Definition w_fitted : state Z Z (list Z) :=
  mk_state (mk_model 0 1 [0; 1]%Z 1 (Some kernel_121)) heap0 1 [].

(** The coefficients of the doctest of [resize_coeff], one state. *)
Definition kernel_1541 : filter Z :=
  Filter (mk_ndarray [1; 5; 4; 1] (Z.of_nat <$> seq 0 20)) 0 [1; 5; 4] 1.

End Example.

(** * Properties *)

(** ** Shapes, offsets and multi-indices *)

Lemma numel_cons (n : nat) (s : list nat) : numel (n :: s) = n * numel s.
Proof. reflexivity. Qed.

Lemma numel_nil : numel [] = 1.
Proof. reflexivity. Qed.

Lemma numel_app (s t : list nat) : numel (s ++ t) = numel s * numel t.
Proof.
  induction s as [|n s IH].
  - rewrite app_nil_l, numel_nil. lia.
  - rewrite <- app_comm_cons, !numel_cons, IH. lia.
Qed.

Lemma valid_index_length (s idx : list nat) :
  valid_index s idx → length idx = length s.
Proof. apply Forall2_length. Qed.

Lemma valid_index_app (s idx : list nat) (H h : nat) :
  valid_index s idx → h < H → valid_index (s ++ [H]) (idx ++ [h]).
Proof.
  intros Hv Hh. apply Forall2_app; [done|]. by repeat constructor.
Qed.

Lemma valid_index_cons (s idx : list nat) (n i : nat) :
  i < n → valid_index s idx → valid_index (n :: s) (i :: idx).
Proof. intros. by constructor. Qed.

Lemma ravel_lt (s idx : list nat) :
  valid_index s idx → ravel s idx < numel s.
Proof.
  intros Hv. induction Hv as [|i n idx s Hi Hv IH]; cbn [ravel].
  - cbn. lia.
  - rewrite numel_cons.
    pose proof (Nat.mul_le_mono_r (S i) n (numel s) Hi). lia.
Qed.

Lemma ravel_inj (s idx1 idx2 : list nat) :
  valid_index s idx1 → valid_index s idx2 →
  ravel s idx1 = ravel s idx2 → idx1 = idx2.
Proof.
  intros Hv1. revert idx2.
  induction Hv1 as [|i n idx s Hi Hv IH]; intros idx2 Hv2 Heq.
  - by inversion Hv2.
  - inversion Hv2 as [|i2 n2 idx2' s2 Hi2 Hv2']; subst. cbn [ravel] in Heq.
    pose proof (ravel_lt _ _ Hv). pose proof (ravel_lt _ _ Hv2').
    pose proof (Nat.mul_le_mono_r (S i) i2 (numel s)).
    pose proof (Nat.mul_le_mono_r (S i2) i (numel s)).
    assert (i = i2) as -> by lia.
    f_equal. apply IH; [done | lia].
Qed.

Lemma ravel_app (s idx : list nat) (H h : nat) :
  length idx = length s →
  ravel (s ++ [H]) (idx ++ [h]) = ravel s idx * H + h.
Proof.
  revert idx. induction s as [|n s IH]; intros [|i idx] Hlen; try done.
  - cbn. lia.
  - cbn [app ravel]. rewrite IH by (cbn in Hlen; lia).
    rewrite numel_app. cbn [numel foldr]. lia.
Qed.

Lemma elem_of_ndindex (s idx : list nat) :
  idx ∈ ndindex s ↔ valid_index s idx.
Proof.
  revert idx. induction s as [|n s IH]; intros idx; cbn [ndindex].
  - rewrite list_elem_of_singleton. split; [intros ->; constructor|].
    by inversion 1.
  - rewrite list_elem_of_bind. split.
    + intros (i & Hin & Hi).
      apply list_elem_of_fmap in Hin as (idx' & -> & Hin).
      apply elem_of_seq in Hi. constructor; [lia|]. by apply IH.
    + inversion 1 as [|i ? idx' ? Hi Hv]; subst. exists i. split.
      * apply list_elem_of_fmap. exists idx'. split; [done|]. by apply IH.
      * apply elem_of_seq. lia.
Qed.

Lemma NoDup_ndindex (s : list nat) : NoDup (ndindex s).
Proof.
  induction s as [|n s IH]; cbn [ndindex].
  - apply NoDup_singleton.
  - apply NoDup_bind.
    + intros i j idx _ _ Hi Hj.
      apply list_elem_of_fmap in Hi as (? & -> & _).
      apply list_elem_of_fmap in Hj as (? & [= ->] & _). done.
    + intros i _. apply NoDup_fmap_2; [|done]. by intros ?? [= ->].
    + apply NoDup_seq.
Qed.

(** ** Slices select distinct positions of the axis *)

Lemma indices_bounds (sl : slice) (len a b st : Z) :
  (0 ≤ len)%Z → indices sl len = Returned (a, b, st) →
  (0 < st ∧ 0 ≤ a ≤ len ∧ 0 ≤ b ≤ len)%Z
  ∨ (st < 0 ∧ -1 ≤ a ≤ len - 1 ∧ -1 ≤ b ≤ len - 1)%Z.
Proof.
  intros Hlen. unfold indices.
  destruct (decide (default 1 (step sl) = 0)%Z) as [|Hst]; [done|].
  intros [= <- <- <-].
  destruct (decide (default 1 (step sl) < 0)%Z); [right | left];
    (split; [lia|]);
    destruct (start sl), (stop sl); repeat case_decide; lia.
Qed.

Lemma range_position_bounds (a b st len : Z) (i : nat) :
  ((0 < st ∧ 0 ≤ a ≤ len ∧ 0 ≤ b ≤ len)
   ∨ (st < 0 ∧ -1 ≤ a ≤ len - 1 ∧ -1 ≤ b ≤ len - 1))%Z →
  (Z.of_nat i < range_len a b st)%Z →
  (0 ≤ a + Z.of_nat i * st < len)%Z.
Proof.
  unfold range_len. intros [(Hst & Ha & Hb) | (Hst & Ha & Hb)] Hi.
  - rewrite decide_True in Hi by done.
    destruct (decide (a < b)%Z); [|lia].
    assert (Z.of_nat i ≤ (b - a - 1) `div` st)%Z as Hi' by lia.
    pose proof (Z.mul_div_le (b - a - 1) st Hst).
    assert (Z.of_nat i * st ≤ st * ((b - a - 1) `div` st))%Z by nia.
    lia.
  - rewrite decide_False in Hi by lia.
    destruct (decide (b < a)%Z); [|lia].
    assert (Z.of_nat i ≤ (a - b - 1) `div` (- st))%Z as Hi' by lia.
    pose proof (Z.mul_div_le (a - b - 1) (- st) ltac:(lia)).
    assert (Z.of_nat i * (- st) ≤ (- st) * ((a - b - 1) `div` (- st)))%Z by nia.
    lia.
Qed.

Lemma positions_spec (sl : slice) (n : nat) (cols : list nat) :
  positions sl n = Returned cols →
  Forall (λ h, h < n) cols ∧ NoDup cols.
Proof.
  unfold positions.
  destruct (indices sl (Z.of_nat n)) as [[[a b] st]|e] eqn:Hind; [|done].
  cbn [mbind outcome_bind]. intros [= <-].
  pose proof (indices_bounds _ _ _ _ _ (Nat2Z.is_nonneg n) Hind) as Hb.
  split.
  - apply Forall_fmap, Forall_forall. intros i Hi%elem_of_seq. cbn.
    pose proof (range_position_bounds a b st _ i Hb ltac:(lia)). lia.
  - apply NoDup_fmap_2_strong; [|apply NoDup_seq].
    intros i j Hi%elem_of_seq Hj%elem_of_seq Heq.
    pose proof (range_position_bounds a b st _ i Hb ltac:(lia)).
    pose proof (range_position_bounds a b st _ j Hb ltac:(lia)).
    assert (Z.of_nat i * st = Z.of_nat j * st)%Z as Hmul by lia.
    assert (st ≠ 0)%Z by (destruct Hb; lia).
    apply Z.mul_cancel_r in Hmul; [lia | done].
Qed.

Lemma step_nonzero_positions (sl : slice) (n : nat) :
  step sl ≠ Some 0%Z → ∃ cols, positions sl n = Returned cols.
Proof.
  intros Hst. unfold positions, indices.
  rewrite decide_False; [cbn; eauto|].
  destruct (step sl) as [st|]; cbn; [congruence | lia].
Qed.

(** ** Reading and writing array entries *)

Lemma mapM_returned {A B} (f : A → outcome B) (l : list A) :
  (∀ x, x ∈ l → ∃ y, f x = Returned y) →
  ∃ k, mapM f l = Returned k ∧ Forall2 (λ x y, f x = Returned y) l k.
Proof.
  induction l as [|x l IH]; intros Hf; cbn [mapM].
  - exists []. split; [done | constructor].
  - destruct (Hf x) as [y Hy]; [by left|].
    destruct IH as (k & Hk & HF); [intros; apply Hf; by right|].
    exists (y :: k). rewrite Hy. cbn. rewrite Hk. cbn.
    split; [done | by constructor].
Qed.

Lemma getitem_lookup {A} (X : ndarray A) (idx : list nat) (x : A) :
  getitem X idx = Returned x ↔
  valid_index (shape X) idx ∧ data X !! ravel (shape X) idx = Some x.
Proof.
  unfold getitem. case_decide as Hv.
  - destruct (data X !! _) as [x'|]; split.
    + intros [= ->]. done.
    + intros [_ [= ->]]. done.
    + done.
    + intros [_ ?]. done.
  - split; [done | tauto].
Qed.

Lemma getitem_returned {A} (X : ndarray A) (idx : list nat) :
  wf X → valid_index (shape X) idx → ∃ x, getitem X idx = Returned x.
Proof.
  intros Hwf Hv.
  destruct (lookup_lt_is_Some_2 (data X) (ravel (shape X) idx)) as [x Hx].
  { rewrite Hwf. by apply ravel_lt. }
  exists x. by apply getitem_lookup.
Qed.

Lemma getitem_slice_ints_slice_returned {A} (X : ndarray A)
    (n H : nat) (s ijk : list nat) (s1 : slice) (cols : list nat) :
  shape X = n :: s ++ [H] → wf X → valid_index s ijk →
  positions s1 H = Returned cols →
  ∃ a m, getitem_slice_ints_slice X slice_None ijk s1 = Returned a
         ∧ shape a = [m; length cols].
Proof.
  intros HX Hwf Hijk Hcols. unfold getitem_slice_ints_slice.
  rewrite HX, last_snoc, decide_True.
  2:{ unfold ndim. rewrite HX. cbn. rewrite length_app.
      rewrite (valid_index_length _ _ Hijk). cbn. lia. }
  destruct (step_nonzero_positions slice_None n) as [rows Hrows]; [done|].
  rewrite Hrows, Hcols. cbn [mbind outcome_bind].
  apply positions_spec in Hrows as [Hrows _].
  apply positions_spec in Hcols as [Hcols _].
  destruct (mapM_returned
              (λ r, mapM (λ h, getitem X (r :: ijk ++ [h])) cols) rows)
    as (entries & -> & _).
  { intros r Hr.
    destruct (mapM_returned (λ h, getitem X (r :: ijk ++ [h])) cols)
      as (row & -> & _); [|eauto].
    intros h Hh. apply getitem_returned; [done|]. rewrite HX.
    rewrite Forall_forall in Hrows, Hcols.
    apply valid_index_cons; [by apply Hrows|].
    apply valid_index_app; [done | by apply Hcols]. }
  cbn. eauto.
Qed.

Lemma getitem_slice_ints_returned {A} (X : ndarray A)
    (n : nat) (s ijk : list nat) :
  shape X = n :: s → valid_index s ijk →
  ∃ rhs, getitem_slice_ints X slice_None ijk = Returned rhs.
Proof.
  intros HX Hijk. unfold getitem_slice_ints. rewrite HX.
  destruct (step_nonzero_positions slice_None n) as [rows Hrows]; [done|].
  rewrite Hrows. cbn [mbind outcome_bind].
  apply positions_spec in Hrows as [Hrows _].
  destruct (mapM_returned (λ r, subarray X (r :: ijk)) rows)
    as (subs & -> & _); [|cbn; eauto].
  intros r Hr. unfold subarray. rewrite HX. cbn [length].
  rewrite (valid_index_length _ _ Hijk).
  rewrite decide_True; [eauto|].
  rewrite take_ge by (cbn; lia). rewrite Forall_forall in Hrows.
  apply valid_index_cons; [by apply Hrows | done].
Qed.

Lemma broadcast_to_vector {A} (k : ndarray A) (m : nat) :
  shape k = [m] → wf k → broadcast_to k m = Returned (data k).
Proof.
  intros Hk Hwf. unfold broadcast_to. rewrite Hk.
  case_decide as Hs; [done|].
  destruct (decide (m = 1)) as [->|]; [|destruct m as [|[|m]]; done].
  cbn. unfold wf in Hwf. rewrite Hk in Hwf. cbn in Hwf.
  by destruct (data k) as [|v []].
Qed.

Lemma setitem_loop {A} (s ijk : list nat) (H : nat)
    (cols : list nat) (vals : list A) (X : ndarray A) :
  valid_index s ijk →
  Forall (λ h, h < H) cols → NoDup cols → length vals = length cols →
  shape X = s ++ [H] → wf X →
  ∃ X', for_loop (λ X' hv, setitem X' (ijk ++ [hv.1]) hv.2) (zip cols vals) X
          = Returned X'
        ∧ shape X' = s ++ [H] ∧ wf X'
        ∧ (∀ j h, cols !! j = Some h →
             data X' !! (ravel s ijk * H + h) = vals !! j)
        ∧ (∀ p, (∀ h, h ∈ cols → p ≠ ravel s ijk * H + h) →
             data X' !! p = data X !! p).
Proof.
  intros Hijk Hcols Hnd. revert vals X.
  induction Hnd as [|h cols Hh Hnd IH]; intros vals X Hlen HX Hwf.
  - exists X. cbn. repeat split; try done.
  - destruct vals as [|v vals]; [done|]. cbn [zip zip_with for_loop fst snd].
    apply Forall_cons in Hcols as [HhH Hcols].
    unfold setitem at 2. rewrite decide_True
      by (rewrite HX; by apply valid_index_app).
    cbn [mbind outcome_bind]. rewrite HX.
    rewrite (ravel_app s ijk H h) by (by apply valid_index_length).
    set (X1 := mk_ndarray (s ++ [H]) (<[ravel s ijk * H + h := v]> (data X))).
    destruct (IH Hcols vals X1) as (X' & -> & HX' & Hwf' & Hin & Hout).
    { cbn in Hlen. lia. }
    { done. }
    { unfold wf, X1. cbn. rewrite length_insert, <- HX. apply Hwf. }
    exists X'. repeat split; try done.
    + intros [|j] h'; cbn.
      * intros [= <-]. rewrite Hout.
        -- unfold X1. cbn. apply list_lookup_insert_eq.
           rewrite Hwf, HX, numel_app. cbn.
           pose proof (ravel_lt _ _ Hijk). nia.
        -- intros h' Hh' Heq. assert (h = h') as -> by lia. done.
      * apply Hin.
    + intros p Hp. rewrite Hout.
      * unfold X1. cbn. apply list_lookup_insert_ne.
        intros <-. apply (Hp h); [by left | done].
      * intros h' Hh'. apply Hp. by right.
Qed.

Lemma setitem_ints_slice_spec {A} (X k : ndarray A) (s ijk : list nat)
    (H : nat) (s1 : slice) (cols : list nat) :
  valid_index s ijk → shape X = s ++ [H] → wf X →
  positions s1 H = Returned cols → shape k = [length cols] → wf k →
  ∃ X', setitem_ints_slice X ijk s1 k = Returned X'
        ∧ shape X' = s ++ [H] ∧ wf X'
        ∧ (∀ j h, cols !! j = Some h →
             data X' !! (ravel s ijk * H + h) = data k !! j)
        ∧ (∀ p, (∀ h, h ∈ cols → p ≠ ravel s ijk * H + h) →
             data X' !! p = data X !! p).
Proof.
  intros Hijk HX Hwf Hcols Hk Hwfk. unfold setitem_ints_slice.
  rewrite HX, last_snoc, decide_True.
  2:{ unfold ndim. rewrite HX, length_app.
      rewrite (valid_index_length _ _ Hijk). cbn. lia. }
  rewrite Hcols. cbn [mbind outcome_bind].
  rewrite (broadcast_to_vector k _ Hk Hwfk). cbn [mbind outcome_bind].
  apply positions_spec in Hcols as [Hlt Hnd].
  apply setitem_loop; try done.
  unfold wf in Hwfk. rewrite Hk in Hwfk. cbn in Hwfk. lia.
Qed.

Section KernelProperties.

Context {C Domain : Type}.
Variable czero : C.
Variable _get_basis_slice : basis_obj Domain → list nat → slice → slice.
Variable lstsq : ndarray C → ndarray C → string + ndarray C.

Local Abbreviation fit_bin' := (fit_bin _get_basis_slice lstsq).
Local Abbreviation fit_kernel' := (fit_kernel czero _get_basis_slice lstsq).
Local Abbreviation bin_solvable' := (bin_solvable _get_basis_slice lstsq).
Local Abbreviation bin_solved' := (bin_solved czero _get_basis_slice lstsq).

(** Whether a bin is solved depends on the entries of that bin only. *)
Lemma bin_solved_ext (b : basis_obj Domain) (FX Fy Fk1 Fk2 : ndarray C)
    (s ijk : list nat) (H : nat) :
  valid_index s ijk →
  shape Fk1 = s ++ [H] → shape Fk2 = s ++ [H] →
  (∀ h, h < H →
     data Fk2 !! (ravel s ijk * H + h) = data Fk1 !! (ravel s ijk * H + h)) →
  bin_solved' b FX Fy Fk1 H ijk → bin_solved' b FX Fy Fk2 H ijk.
Proof.
  intros Hijk H1 H2 Hsame (cols & a & rhs & k & Hcols & Ha & Hrhs & Hk & Hin & Hout).
  assert (∀ h v, h < H →
            getitem Fk1 (ijk ++ [h]) = Returned v →
            getitem Fk2 (ijk ++ [h]) = Returned v) as Hget.
  { intros h v Hh. rewrite !getitem_lookup, H1, H2.
    rewrite (ravel_app s ijk H h) by (by apply valid_index_length).
    rewrite Hsame by done. done. }
  exists cols, a, rhs, k. repeat split; try done.
  - intros j h Hj. destruct (Hin j h Hj) as (v & Hv & Hg).
    exists v. split; [done|]. apply Hget; [|done].
    apply positions_spec in Hcols as [Hlt _]. rewrite Forall_forall in Hlt.
    apply Hlt. by eapply list_elem_of_lookup_2.
  - intros h Hh Hnot. by apply Hget, Hout.
Qed.

Lemma fit_bin_spec (b : basis_obj Domain) (FX Fy Fk : ndarray C)
    (n H : nat) (s ijk : list nat) :
  shape FX = n :: s ++ [H] → shape Fy = n :: s → wf FX →
  valid_index s ijk → bin_solvable' b FX Fy ijk →
  shape Fk = s ++ [H] → wf Fk →
  (∀ h, h < H → data Fk !! (ravel s ijk * H + h) = Some czero) →
  ∃ Fk', fit_bin' b FX Fy Fk ijk = Returned Fk'
         ∧ shape Fk' = s ++ [H] ∧ wf Fk'
         ∧ bin_solved' b FX Fy Fk' H ijk
         ∧ (∀ p, (∀ h, h < H → p ≠ ravel s ijk * H + h) →
              data Fk' !! p = data Fk !! p).
Proof.
  intros HFX HFy HwfX Hijk [Hstep Hsolve] HFk HwfK Hzero.
  destruct (step_nonzero_positions _ H Hstep) as [cols Hcols].
  destruct (getitem_slice_ints_slice_returned FX n H s ijk _ cols
              HFX HwfX Hijk Hcols) as (a & m & Ha & Hsa).
  destruct (getitem_slice_ints_returned Fy n s ijk HFy Hijk) as [rhs Hrhs].
  destruct (Hsolve a rhs Ha Hrhs) as (k & Hk & Hsk & Hwfk).
  rewrite Hsa in Hsk. cbn in Hsk.
  destruct (setitem_ints_slice_spec Fk k s ijk H _ cols
              Hijk HFk HwfK Hcols Hsk Hwfk)
    as (Fk' & Hset & HFk' & Hwf' & Hin & Hout).
  pose proof Hcols as [Hlt Hnd]%positions_spec. rewrite Forall_forall in Hlt.
  exists Fk'. unfold fit_bin. rewrite Ha, Hrhs. cbn [mbind outcome_bind].
  rewrite Hk. cbn [lstsq_result mbind outcome_bind].
  repeat split; try done.
  - exists cols, a, rhs, k. repeat split; try done.
    + intros j h Hj.
      assert (is_Some (data k !! j)) as [v Hv].
      { apply lookup_lt_is_Some_2. unfold wf in Hwfk. rewrite Hwfk, Hsk. cbn.
        apply lookup_lt_Some in Hj. lia. }
      exists v. split; [done|]. apply getitem_lookup. rewrite HFk'.
      split.
      * apply valid_index_app; [done|]. apply Hlt.
        by eapply list_elem_of_lookup_2.
      * rewrite (ravel_app s ijk H h) by (by apply valid_index_length).
        by rewrite (Hin j h Hj).
    + intros h Hh Hnot. apply getitem_lookup. rewrite HFk'. split.
      * by apply valid_index_app.
      * rewrite (ravel_app s ijk H h) by (by apply valid_index_length).
        rewrite Hout; [by apply Hzero|].
        intros h' Hh' Heq. assert (h = h') as -> by lia. done.
  - intros p Hp. apply Hout. intros h Hh. apply Hp, Hlt, Hh.
Qed.

Lemma fit_loop_spec (b : basis_obj Domain) (FX Fy : ndarray C)
    (n H : nat) (s : list nat) (bins : list (list nat)) (Fk : ndarray C) :
  shape FX = n :: s ++ [H] → shape Fy = n :: s → wf FX →
  NoDup bins →
  (∀ ijk, ijk ∈ bins → valid_index s ijk ∧ bin_solvable' b FX Fy ijk) →
  shape Fk = s ++ [H] → wf Fk →
  (∀ ijk h, ijk ∈ bins → h < H →
     data Fk !! (ravel s ijk * H + h) = Some czero) →
  ∃ Fk', for_loop (fit_bin' b FX Fy) bins Fk = Returned Fk'
         ∧ shape Fk' = s ++ [H]
         ∧ (∀ ijk, ijk ∈ bins → bin_solved' b FX Fy Fk' H ijk)
         ∧ (∀ ijk h, valid_index s ijk → ijk ∉ bins → h < H →
              data Fk' !! (ravel s ijk * H + h)
                = data Fk !! (ravel s ijk * H + h)).
Proof.
  intros HFX HFy HwfX Hnd. revert Fk.
  induction Hnd as [|ijk bins Hnot Hnd IH]; intros Fk Hbins HFk HwfK Hzero.
  - exists Fk. cbn. repeat split; try done. intros ijk Hin. by inversion Hin.
  - destruct (Hbins ijk) as [Hijk Hsolvable]; [by left|].
    destruct (fit_bin_spec b FX Fy Fk n H s ijk HFX HFy HwfX Hijk Hsolvable
                HFk HwfK) as (Fk1 & Hstep & HFk1 & Hwf1 & Hsolved & Hframe).
    { intros h Hh. apply Hzero; [by left | done]. }
    assert (∀ ijk' h, valid_index s ijk' → ijk' ≠ ijk → h < H →
              data Fk1 !! (ravel s ijk' * H + h)
                = data Fk !! (ravel s ijk' * H + h)) as Hother.
    { intros ijk' h Hv Hne Hh. apply Hframe. intros h' Hh' Heq.
      apply Hne. apply (ravel_inj s); [done | done |]. nia. }
    destruct (IH Fk1) as (Fk' & Hloop & HFk' & Hall & Hrest).
    { intros ijk' Hin. apply Hbins. by right. }
    { done. }
    { done. }
    { intros ijk' h Hin Hh. rewrite Hother; [|by apply Hbins; right| |done].
      - apply Hzero; [by right | done].
      - intros ->. done. }
    exists Fk'. cbn [for_loop]. rewrite Hstep. cbn [mbind outcome_bind].
    repeat split; try done.
    + intros ijk' [-> | Hin]%elem_of_cons; [|by apply Hall].
      apply (bin_solved_ext b FX Fy Fk1 Fk' s ijk H); try done.
      intros h Hh. by apply Hrest.
    + intros ijk' h Hv Hnotin Hh.
      apply not_elem_of_cons in Hnotin as [Hne Hnotin].
      rewrite Hrest by done. by apply Hother.
Qed.

(** C1: when the transformed arrays have the shapes [(n, s..., H)] and
    [(n, s...)] and the solve of every bin succeeds, the loop of [fit]
    returns a kernel of shape [(s..., H)] in which, at every
    spatial-frequency multi-index [ijk], the entries on the slice supplied
    by the basis are the least-squares solution of
    [FX[:, ijk, slice] · k = Fy[:, ijk]] and every other entry of the bin
    is zero. *)
Theorem fit_kernel_solves_every_bin (b : basis_obj Domain)
    (FX Fy : ndarray C) (n H : nat) (s : list nat) :
  shape FX = n :: s ++ [H] → shape Fy = n :: s → wf FX →
  (∀ ijk, ijk ∈ ndindex s → bin_solvable' b FX Fy ijk) →
  ∃ Fkernel,
    fit_kernel' b FX Fy = Returned Fkernel
    ∧ shape Fkernel = s ++ [H]
    ∧ ∀ ijk, ijk ∈ ndindex s → bin_solved' b FX Fy Fkernel H ijk.
Proof.
  intros HFX HFy HwfX Hsolvable. unfold fit_kernel.
  unfold tuple_from1, tuple_from1_to_last. rewrite HFX. cbn [tail].
  rewrite removelast_last.
  destruct (fit_loop_spec b FX Fy n H s (ndindex s) (zeros czero (s ++ [H]))
              HFX HFy HwfX (NoDup_ndindex s))
    as (Fk' & Hloop & HFk' & Hall & _).
  - intros ijk Hin. split; [by apply elem_of_ndindex | by apply Hsolvable].
  - done.
  - unfold wf, zeros. cbn. apply length_replicate.
  - intros ijk h Hin%elem_of_ndindex Hh. unfold zeros. cbn.
    apply lookup_replicate_2. rewrite numel_app. cbn.
    pose proof (ravel_lt _ _ Hin). nia.
  - exists Fk'. done.
Qed.

End KernelProperties.

(** ** The reshape helper *)

Lemma reshape_own_shape {A} (X : ndarray A) : reshape X (shape X) = Returned X.
Proof.
  unfold reshape. rewrite decide_True by done. by destruct X.
Qed.

Lemma tuple_first_last_cons (t : list nat) (x : nat) :
  last t = Some x → ∃ n t', t = n :: t'.
Proof. destruct t; [done | eauto]. Qed.

(** C6: on an array with at least the sample axis and a non-empty target
    size, [_reshape_feature] returns [X] itself, shape and buffer
    unchanged, when [X.shape[-1] // 2 + 1 == size[-1]] and
    [X.ndim - 1 == len(size)], and otherwise returns
    [X.reshape((X.shape[0],) + size)]. *)
Theorem reshape_feature_spec {A} (X : ndarray A) (size : list nat)
    (x_last s_last : nat) :
  last (shape X) = Some x_last →
  last size = Some s_last →
  (x_last `div` 2 + 1 = s_last ∧ ndim X - 1 = length size →
     _reshape_feature X size = Returned X) ∧
  (¬ (x_last `div` 2 + 1 = s_last ∧ ndim X - 1 = length size) →
     ∃ n, head (shape X) = Some n ∧
          _reshape_feature X size = reshape X (n :: size)).
Proof.
  intros HX Hs.
  destruct (tuple_first_last_cons _ _ HX) as (n & rest & Hshape).
  unfold _reshape_feature, tuple_last, tuple_first.
  rewrite HX, Hs. cbn [mbind outcome_bind].
  rewrite Hshape, <- bool_decide_and. cbn [mbind outcome_bind].
  split.
  - intros Hc. rewrite bool_decide_eq_true_2 by done.
    cbn. rewrite <- Hshape. apply reshape_own_shape.
  - intros Hc. rewrite bool_decide_eq_false_2 by done. by exists n.
Qed.

Lemma reshape_feature_spec_witness :
  _reshape_feature (mk_ndarray [2; 4] (seq 0 8)) [3]
    = Returned (mk_ndarray [2; 4] (seq 0 8)) ∧
  ∃ n, head [2; 4] = Some n ∧
       _reshape_feature (mk_ndarray [2; 4] (seq 0 8)) [2; 2]
         = reshape (mk_ndarray [2; 4] (seq 0 8)) [n; 2; 2].
Proof.
  split.
  - apply (reshape_feature_spec (mk_ndarray [2; 4] (seq 0 8)) [3] 4 3);
      [reflexivity | reflexivity | simpl; lia].
  - apply (reshape_feature_spec (mk_ndarray [2; 4] (seq 0 8)) [2; 2] 4 2);
      [reflexivity | reflexivity | simpl; lia].
Defined.

(** ** The constructor and the methods before a fit *)

Section BeforeFit.

Context {R C Domain : Type}.
Variable discretize :
  basis_obj Domain → ndarray R → option (list nat) * (string + ndarray R).
Variable convolve : filter C → ndarray R → string + ndarray R.
Variable _frequency_2_real : filter C → bool → string + ndarray R.

(** C10: the constructor takes [n_states] from the basis when it is
    [None] and from the argument otherwise, and always copies the domain
    of the basis. *)
Theorem init_attributes (h : loc → basis_obj Domain) (b : loc)
    (n : nat) (ns : option nat) (jobs : Z) :
  n_states (__init__ (C:=C) h b None jobs) = b_n_states (h b) ∧
  n_states (__init__ (C:=C) h b (Some n) jobs) = n ∧
  domain (__init__ (C:=C) h b ns jobs) = b_domain (h b).
Proof. done. Qed.

(** C5: on a newly constructed model, [predict] raises
    [AttributeError("fit() method must be run before predict().")] and
    leaves the model, the store and the list of collaborator calls as they
    were. *)
Theorem predict_before_fit (h : loc → basis_obj Domain) (nxt : loc)
    (cs : list (call R C Domain)) (b : loc) (ns : option nat) (jobs : Z)
    (X : ndarray R) :
  predict discretize convolve X (constructed h nxt cs b ns jobs) =
    (constructed h nxt cs b ns jobs,
     Raised (AttributeError "fit() method must be run before predict().")).
Proof. done. Qed.

(** C9: on a newly constructed model, reading [coeff] raises an
    [AttributeError] (there is no [_filter]) and returns no value. *)
Theorem coeff_before_fit (h : loc → basis_obj Domain) (nxt : loc)
    (cs : list (call R C Domain)) (b : loc) (ns : option nat) (jobs : Z) :
  ∃ msg, coeff _frequency_2_real (constructed h nxt cs b ns jobs) =
    (constructed h nxt cs b ns jobs, Raised (AttributeError msg)).
Proof. eexists. done. Qed.

End BeforeFit.

(** ** Which exceptions the loop of [fit] can raise *)

Lemma raises_only_bind {A B} (P : exn → Prop) (m : outcome A)
    (f : A → outcome B) :
  raises_only P m → (∀ a, m = Returned a → raises_only P (f a)) →
  raises_only P (m ≫= f).
Proof.
  intros Hm Hf e. destruct m as [a|e']; cbn.
  - by apply Hf.
  - intros [= ->]. by apply Hm.
Qed.

Lemma raises_only_returned {A} (P : exn → Prop) (a : A) :
  raises_only P (Returned a).
Proof. by intros e. Qed.

Lemma raises_only_raised {A} (P : exn → Prop) (e : exn) :
  P e → raises_only P (Raised e : outcome A).
Proof. by intros HP e' [= <-]. Qed.

Lemma raises_only_mapM {A B} (P : exn → Prop) (f : A → outcome B)
    (l : list A) :
  (∀ x, raises_only P (f x)) → raises_only P (mapM f l).
Proof.
  intros Hf. induction l as [|x l IH]; cbn.
  - apply raises_only_returned.
  - apply raises_only_bind; [apply Hf|]. intros y _.
    apply raises_only_bind; [apply IH|]. intros k _.
    apply raises_only_returned.
Qed.

Lemma raises_only_for_loop {A S} (P : exn → Prop) (body : S → A → outcome S)
    (l : list A) (s : S) :
  (∀ s x, raises_only P (body s x)) → raises_only P (for_loop body l s).
Proof.
  intros Hb. revert s. induction l as [|x l IH]; intros s; cbn.
  - apply raises_only_returned.
  - apply raises_only_bind; [apply Hb|]. intros s' _. apply IH.
Qed.

Lemma positions_raises (sl : slice) (n : nat) :
  raises_only solve_exn (positions sl n).
Proof.
  unfold positions, indices. case_decide.
  - cbn. intros e [= <-]. cbn. done.
  - cbn. apply raises_only_returned.
Qed.

Lemma getitem_raises {A} (X : ndarray A) (idx : list nat) :
  raises_only solve_exn (getitem X idx).
Proof.
  unfold getitem. case_decide; [destruct (data X !! _)|];
    intros e [= <-]; done.
Qed.

Lemma subarray_raises {A} (X : ndarray A) (idx : list nat) :
  raises_only solve_exn (subarray X idx).
Proof. unfold subarray. cbn. case_decide; intros e [= <-]; done. Qed.

Lemma setitem_raises {A} (X : ndarray A) (idx : list nat) (x : A) :
  raises_only solve_exn (setitem X idx x).
Proof. unfold setitem. case_decide; intros e [= <-]; done. Qed.

Lemma broadcast_to_raises {A} (x : ndarray A) (m : nat) :
  raises_only solve_exn (broadcast_to x m).
Proof.
  unfold broadcast_to. case_decide; [apply raises_only_returned|].
  destruct (strip_ones (shape x)); [destruct (data x) as [|? []]|];
    intros e [= <-]; done.
Qed.

Lemma getitem_slice_ints_slice_raises {A} (X : ndarray A) s0 ijk s1 :
  raises_only solve_exn (getitem_slice_ints_slice X s0 ijk s1).
Proof.
  unfold getitem_slice_ints_slice.
  destruct (shape X) as [|n rest]; [by apply raises_only_raised|].
  destruct (last rest); [|by apply raises_only_raised].
  case_decide; [|by apply raises_only_raised].
  apply raises_only_bind; [apply positions_raises|]. intros rows _.
  apply raises_only_bind; [apply positions_raises|]. intros cols _.
  apply raises_only_bind; [|intros; apply raises_only_returned].
  apply raises_only_mapM. intros r. apply raises_only_mapM. intros h.
  apply getitem_raises.
Qed.

Lemma getitem_slice_ints_raises {A} (X : ndarray A) s0 ijk :
  raises_only solve_exn (getitem_slice_ints X s0 ijk).
Proof.
  unfold getitem_slice_ints.
  destruct (shape X) as [|n rest]; [by apply raises_only_raised|].
  apply raises_only_bind; [apply positions_raises|]. intros rows _.
  apply raises_only_bind; [|intros; apply raises_only_returned].
  apply raises_only_mapM. intros r. apply subarray_raises.
Qed.

Lemma setitem_ints_slice_raises {A} (X : ndarray A) ijk s1 x :
  raises_only solve_exn (setitem_ints_slice X ijk s1 x).
Proof.
  unfold setitem_ints_slice.
  destruct (last (shape X)); [|by apply raises_only_raised].
  case_decide; [|by apply raises_only_raised].
  apply raises_only_bind; [apply positions_raises|]. intros cols _.
  apply raises_only_bind; [apply broadcast_to_raises|]. intros vals _.
  apply raises_only_for_loop. intros X' hv. apply setitem_raises.
Qed.

Lemma solve_exn_not_shape (e : exn) : solve_exn e → ¬ ShapeError e.
Proof. intros He [-> | [-> | ->]]; cbn in He; done. Qed.

Ltac calibrate_frame :=
  cbn [self heap next calls n_states domain n_jobs basis _filter];
  repeat match goal with
    | |- _ ∧ _ => split
    | |- ∀ l', l' ≠ _ → _ => let H := fresh in intros ? H
    | |- context [<[?l := _]> _ ?l] => rewrite fn_lookup_insert
    | H : ?l' ≠ ?l |- context [<[?l := _]> _ ?l'] =>
        rewrite (fn_lookup_insert_ne _ l l') by done
    | |- ∃ rest, _ ++ _ = _ ++ _ :: rest =>
        rewrite <- ?app_assoc; by eexists
    | |- ¬ ShapeError (BasisError _) => by intros [? | [? | ?]]
    | |- _ => done
    end.

Section FitProperties.

Context {R C Domain : Type}.
Variable czero : C.
Variable discretize :
  basis_obj Domain → ndarray R → option (list nat) * (string + ndarray R).
Variable _fftn :
  basis_obj Domain → ndarray R → Z → option (list nat) * (string + ndarray C).
Variable _get_basis_slice : basis_obj Domain → list nat → slice → slice.
Variable lstsq : ndarray C → ndarray C → string + ndarray C.

Local Abbreviation fit_kernel' := (fit_kernel czero _get_basis_slice lstsq).
Local Abbreviation calibrate' :=
  (calibrate czero discretize _fftn _get_basis_slice lstsq).
Local Abbreviation fit' := (fit czero discretize _fftn _get_basis_slice lstsq).

Lemma fit_kernel_raises (b : basis_obj Domain) (FX Fy : ndarray C) :
  raises_only solve_exn (fit_kernel' b FX Fy).
Proof.
  unfold fit_kernel. apply raises_only_for_loop. intros Fk ijk.
  unfold fit_bin.
  apply raises_only_bind; [apply getitem_slice_ints_slice_raises|].
  intros a _.
  apply raises_only_bind; [apply getitem_slice_ints_raises|]. intros rhs _.
  apply raises_only_bind.
  - unfold lstsq_result. destruct (lstsq a rhs); intros e [= <-]; done.
  - intros k _. apply setitem_ints_slice_raises.
Qed.

Lemma recreate_basis_spec (w : state R C Domain) :
  recreate_basis w = (recreated w, Returned (next w)).
Proof. reflexivity. Qed.

Lemma fit_unfold (X y : ndarray R) (size : option (list nat))
    (w : state R C Domain) :
  fit' X y size w =
    match reshape_inputs X y size with
    | Raised e => (recreated w, Raised e)
    | Returned Xy =>
        match check_shapes Xy.1 Xy.2 with
        | Raised e => (recreated w, Raised e)
        | Returned _ =>
            calibrate' (next w) (n_jobs (self w)) Xy.1 Xy.2 (recreated w)
        end
    end.
Proof.
  unfold fit, mbind, method_bind. rewrite recreate_basis_spec.
  unfold lift. destruct (reshape_inputs X y size) as [Xy|e]; [|done].
  destruct (check_shapes Xy.1 Xy.2) as [[]|e]; done.
Qed.

Lemma calibrate_spec (l : loc) (jobs : Z) (X y : ndarray R)
    (w w' : state R C Domain) (r : outcome unit) :
  calibrate' l jobs X y w = (w', r) →
  (n_states (self w') = n_states (self w)
   ∧ domain (self w') = domain (self w)
   ∧ n_jobs (self w') = n_jobs (self w)
   ∧ basis (self w') = basis (self w))
  ∧ next w' = next w
  ∧ (∀ l', l' ≠ l → heap w' l' = heap w l')
  ∧ (b_class (heap w' l) = b_class (heap w l)
     ∧ b_n_states (heap w' l) = b_n_states (heap w l)
     ∧ b_domain (heap w' l) = b_domain (heap w l))
  ∧ (∃ rest, calls w' = calls w ++ Discretize l X :: rest)
  ∧ match r with
    | Raised e => ¬ ShapeError e ∧ _filter (self w') = _filter (self w)
    | Returned _ =>
        ∃ b FX Fy Fk y1,
          fit_kernel' b FX Fy = Returned Fk
          ∧ drop_first y = Returned y1
          ∧ _filter (self w') = Some (Filter (add_axis Fk) l (shape y1) jobs)
    end.
Proof.
  unfold calibrate, log, call_basis, deref, lift, set_filter.
  unfold mbind, method_bind, mret, method_ret.
  cbn [self heap next calls].
  destruct (discretize (heap w l) X) as [ax1 [msg1|X_]];
    [intros [= <- <-]; calibrate_frame|].
  cbn [self heap next calls].
  rewrite fn_lookup_insert; cbn [b_class b_n_states b_domain].
  destruct (_fftn _ X_ jobs) as [ax2 [msg2|FX]];
    [intros [= <- <-]; calibrate_frame|].
  cbn [self heap next calls].
  rewrite fn_lookup_insert; cbn [b_class b_n_states b_domain].
  destruct (_fftn _ y jobs) as [ax3 [msg3|Fy]];
    [intros [= <- <-]; calibrate_frame|].
  cbn [self heap next calls].
  rewrite fn_lookup_insert.
  destruct (fit_kernel' _ FX Fy) as [Fk|e] eqn:EFk.
  2:{ intros [= <- <-]. calibrate_frame.
      by apply solve_exn_not_shape, (fit_kernel_raises _ _ _ _ EFk). }
  destruct (drop_first y) as [y1|e] eqn:Ey1.
  2:{ intros [= <- <-]. calibrate_frame.
      unfold drop_first in Ey1. destruct (shape y); [|done].
      injection Ey1 as <-. by intros [? | [? | ?]]. }
  intros [= <- <-]. calibrate_frame. eauto 10.
Qed.

Lemma reshape_feature_target {A} (X : ndarray A) (size : list nat)
    (n : nat) (rest : list nat) :
  shape X = n :: rest → size ≠ [] →
  _reshape_feature X size = reshape X (n :: target_size X size).
Proof.
  intros HX Hsz.
  destruct (last (shape X)) as [xl|] eqn:EX;
    [|apply last_None in EX; congruence].
  destruct (last size) as [sl|] eqn:Es; [|by apply last_None in Es].
  unfold _reshape_feature, target_size, tuple_last, tuple_first.
  rewrite EX, Es. cbn [mbind outcome_bind default].
  rewrite HX, <- bool_decide_and. done.
Qed.

Lemma reshape_preserving {A} (X : ndarray A) (n : nat) (rest t : list nat) :
  shape X = n :: rest → 0 < n →
  reshape X (n :: t) =
    if decide (numel rest = numel t)
    then Returned (mk_ndarray (n :: t) (data X))
    else Raised (ValueError "cannot reshape array").
Proof.
  intros HX Hn. unfold reshape. rewrite HX. cbn [numel foldr].
  fold (numel t). fold (numel rest).
  destruct (decide (numel rest = numel t)) as [E|E].
  - rewrite decide_True by (by rewrite E). done.
  - rewrite decide_False by nia. done.
Qed.

(** C3 (as amended): when [fit] raises a shape error, the state is the
    one line 109 left: [self.basis] refers to a new instance of the old
    basis's class built from [(n_states, domain)]; [n_states], [domain],
    [n_jobs] and [_filter] are as before, every basis instance that
    existed before is as before, and no collaborator has been called. *)
Theorem fit_shape_error_state (X y : ndarray R) (size : option (list nat))
    (w w' : state R C Domain) (e : exn) :
  fit' X y size w = (w', Raised e) →
  ShapeError e →
  w' = recreated w
  ∧ n_states (self w') = n_states (self w)
  ∧ domain (self w') = domain (self w)
  ∧ n_jobs (self w') = n_jobs (self w)
  ∧ _filter (self w') = _filter (self w)
  ∧ basis (self w') = next w
  ∧ (∀ l, l ≠ next w → heap w' l = heap w l).
Proof.
  intros Hfit He. assert (w' = recreated w) as ->.
  { rewrite fit_unfold in Hfit.
    destruct (reshape_inputs X y size) as [Xy|e1]; [|congruence].
    destruct (check_shapes Xy.1 Xy.2) as [[]|e2]; [|congruence].
    apply calibrate_spec in Hfit. by destruct Hfit as (_ & _ & _ & _ & _ & ? & _). }
  repeat split; try done.
  intros l Hl. cbn. by rewrite fn_lookup_insert_ne.
Qed.

(** C8: every call of [fit], whatever its outcome, first constructs a new
    basis instance of the class of the old one from
    [(n_states, domain)]; after the call [self.basis] is that new
    instance, not the one the model held before, and the instances that
    existed before the call, the old basis among them, are unchanged. *)
Theorem fit_recreates_basis (X y : ndarray R) (size : option (list nat))
    (w : state R C Domain) :
  basis (self w) < next w →
  let w' := (fit' X y size w).1 in
  let old := heap w (basis (self w)) in
  (∃ rest, calls w' =
     calls w
     ++ NewBasis (b_class old) (n_states (self w)) (domain (self w)) (next w)
     :: rest)
  ∧ basis (self w') = next w
  ∧ basis (self w') ≠ basis (self w)
  ∧ (∀ l, l < next w → heap w' l = heap w l)
  ∧ heap w' (basis (self w)) = old
  ∧ b_class (heap w' (basis (self w'))) = b_class old
  ∧ b_n_states (heap w' (basis (self w'))) = n_states (self w)
  ∧ b_domain (heap w' (basis (self w'))) = domain (self w).
Proof.
  intros Hold w' old.
  assert (w' = recreated w ∨
          ∃ Xy r, calibrate' (next w) (n_jobs (self w)) Xy.1 Xy.2 (recreated w)
                  = (w', r)) as [Hw' | (Xy & r & Hcal)].
  { subst w'. rewrite fit_unfold.
    destruct (reshape_inputs X y size) as [Xy|e1]; [|by left].
    destruct (check_shapes Xy.1 Xy.2) as [[]|e2]; [|by left].
    right. exists Xy. eexists. apply surjective_pairing. }
  - rewrite Hw'. cbn. rewrite fn_lookup_insert.
    repeat split; try done; try lia.
    + by exists [].
    + intros l Hl. rewrite fn_lookup_insert_ne by lia. done.
    + rewrite fn_lookup_insert_ne by lia. done.
  - apply calibrate_spec in Hcal.
    destruct Hcal as ((Hn & Hd & Hj & Hb) & Hnext & Hframe
                      & (Hcls & Hns & Hdom) & [rest Hcalls] & _).
    cbn in Hb, Hframe, Hcls, Hns, Hdom, Hcalls.
    rewrite fn_lookup_insert in Hcls, Hns, Hdom. cbn in Hcls, Hns, Hdom.
    rewrite Hb. repeat split; try done; try lia.
    + rewrite Hcalls, <- app_assoc. by eexists.
    + intros l Hl. rewrite Hframe by lia.
      rewrite fn_lookup_insert_ne by lia. done.
    + rewrite Hframe by lia. rewrite fn_lookup_insert_ne by lia. done.
Qed.

Lemma calibrate_returned (l : loc) (jobs : Z) (X y : ndarray R)
    (w w' : state R C Domain) :
  calibrate' l jobs X y w = (w', Returned tt) →
  ∃ ax1 X_ ax2 FX ax3 Fy Fkernel y1,
    discretize (heap w l) X = (ax1, inr X_)
    ∧ _fftn (mk_basis (b_class (heap w l)) (b_n_states (heap w l))
               (b_domain (heap w l)) ax1) X_ jobs = (ax2, inr FX)
    ∧ _fftn (mk_basis (b_class (heap w l)) (b_n_states (heap w l))
               (b_domain (heap w l)) ax2) y jobs = (ax3, inr Fy)
    ∧ fit_kernel' (mk_basis (b_class (heap w l)) (b_n_states (heap w l))
                     (b_domain (heap w l)) ax3) FX Fy = Returned Fkernel
    ∧ drop_first y = Returned y1
    ∧ basis (self w') = basis (self w)
    ∧ heap w' l = mk_basis (b_class (heap w l)) (b_n_states (heap w l))
                    (b_domain (heap w l)) ax3
    ∧ _filter (self w') = Some (Filter (add_axis Fkernel) l (shape y1) jobs).
Proof.
  unfold calibrate, log, call_basis, deref, lift, set_filter.
  unfold mbind, method_bind, mret, method_ret.
  cbn [self heap next calls].
  destruct (discretize (heap w l) X) as [ax1 [msg1|X_]]; [done|].
  cbn [self heap next calls].
  rewrite fn_lookup_insert; cbn [b_class b_n_states b_domain].
  destruct (_fftn _ X_ jobs) as [ax2 [msg2|FX]] eqn:HFX; [done|].
  cbn [self heap next calls].
  rewrite fn_lookup_insert; cbn [b_class b_n_states b_domain].
  destruct (_fftn _ y jobs) as [ax3 [msg3|Fy]] eqn:HFy; [done|].
  cbn [self heap next calls].
  rewrite fn_lookup_insert.
  destruct (fit_kernel' _ FX Fy) as [Fk|e] eqn:HFk; [|done].
  destruct (drop_first y) as [y1|e] eqn:Hy1; [|done].
  intros [= <-]. cbn [self heap next calls basis _filter].
  exists ax1, X_, ax2, FX, ax3, Fy, Fk, y1.
  rewrite fn_lookup_insert. done.
Qed.

(** C2 (as amended): after a call of [fit] that returns, the filter has
    been constructed with the assembled kernel under a new leading axis
    of length one, the re-created basis, the shape of [y[1:]], that is
    the shape of the (reshaped) [y] with its first entry lowered by one,
    and the job count of the model.  The assembled kernel is what the
    loop of [fit] returns on the re-created basis, the transform [FX] of
    the discretized (reshaped) [X] and the transform [Fy] of the
    (reshaped) [y]. *)
Theorem fit_constructs_filter (X y : ndarray R) (size : option (list nat))
    (w w' : state R C Domain) :
  fit' X y size w = (w', Returned tt) →
  ∃ X' y' n s ax1 X_ ax2 FX ax3 Fy Fkernel,
    reshape_inputs X y size = Returned (X', y')
    ∧ shape y' = n :: s
    ∧ discretize
        (basis_new (b_class (heap w (basis (self w))))
           (n_states (self w)) (domain (self w))) X' = (ax1, inr X_)
    ∧ _fftn
        (mk_basis (b_class (heap w (basis (self w))))
           (n_states (self w)) (domain (self w)) ax1)
        X_ (n_jobs (self w)) = (ax2, inr FX)
    ∧ _fftn
        (mk_basis (b_class (heap w (basis (self w))))
           (n_states (self w)) (domain (self w)) ax2)
        y' (n_jobs (self w)) = (ax3, inr Fy)
    ∧ fit_kernel'
        (mk_basis (b_class (heap w (basis (self w))))
           (n_states (self w)) (domain (self w)) ax3)
        FX Fy = Returned Fkernel
    ∧ basis (self w') = next w
    ∧ heap w' (next w) =
        mk_basis (b_class (heap w (basis (self w))))
          (n_states (self w)) (domain (self w)) ax3
    ∧ _filter (self w') =
        Some (Filter (add_axis Fkernel) (basis (self w'))
                     ((n - 1) :: s) (n_jobs (self w))).
Proof.
  intros Hfit. rewrite fit_unfold in Hfit.
  destruct (reshape_inputs X y size) as [[X' y']|e1]; [|congruence].
  cbn [fst snd] in Hfit.
  destruct (check_shapes X' y') as [[]|e2]; [|congruence].
  apply calibrate_returned in Hfit.
  destruct Hfit as (ax1 & X_ & ax2 & FX & ax3 & Fy & Fk & y1
                    & HX_ & HFX & HFy & HFk & Hy1 & Hb & Hheap & Hfilter).
  cbn [recreated self heap basis] in HX_, HFX, HFy, HFk, Hb, Hheap.
  rewrite fn_lookup_insert in HX_, HFX, HFy, HFk, Hheap.
  cbn [basis_new b_class b_n_states b_domain] in HFX, HFy, HFk, Hheap.
  unfold drop_first in Hy1. destruct (shape y') as [|n s] eqn:Ey; [done|].
  injection Hy1 as <-. cbn [shape] in Hfilter.
  exists X', y', n, s, ax1, X_, ax2, FX, ax3, Fy, Fk. rewrite Hb. done.
Qed.

Lemma reshape_feature_preserving {A} (X : ndarray A) (sz : list nat)
    (n : nat) (rest : list nat) :
  shape X = n :: rest → 0 < n → sz ≠ [] →
  (count_preserved X (Some sz) →
     ∃ X', _reshape_feature X sz = Returned X'
           ∧ shape X' = new_shape X (Some sz))
  ∧ (¬ count_preserved X (Some sz) →
     _reshape_feature X sz = Raised (ValueError "cannot reshape array")).
Proof.
  intros HX Hn Hsz.
  rewrite (reshape_feature_target X sz n rest HX Hsz).
  rewrite (reshape_preserving X n rest _ HX Hn).
  unfold count_preserved, new_shape. rewrite HX. cbn [tail head default].
  split; intros Hc.
  - rewrite decide_True by done. eauto.
  - rewrite decide_False by done. done.
Qed.

Lemma reshape_inputs_spec (X y : ndarray R) (size : option (list nat))
    (nX ny : nat) (sX sy : list nat) :
  shape X = nX :: sX → shape y = ny :: sy → 0 < nX → 0 < ny →
  (∀ sz, size = Some sz → sz ≠ []) →
  (count_preserved y size ∧ count_preserved X size →
     ∃ X' y', reshape_inputs X y size = Returned (X', y')
              ∧ shape X' = new_shape X size ∧ shape y' = new_shape y size)
  ∧ (¬ (count_preserved y size ∧ count_preserved X size) →
     reshape_inputs X y size = Raised (ValueError "cannot reshape array")).
Proof.
  intros HX Hy HnX Hny Hsize. destruct size as [sz|]; cbn [reshape_inputs].
  - specialize (Hsize sz eq_refl).
    destruct (reshape_feature_preserving X sz nX sX HX HnX Hsize) as [HX1 HX2].
    destruct (reshape_feature_preserving y sz ny sy Hy Hny Hsize) as [Hy1 Hy2].
    split.
    + intros [Hcy HcX].
      destruct (HX1 HcX) as (X' & -> & ?), (Hy1 Hcy) as (y' & -> & ?).
      by exists X', y'.
    + intros Hc. destruct (decide (count_preserved y (Some sz))) as [Hcy|Hcy].
      * destruct (Hy1 Hcy) as (y' & -> & ?). cbn.
        rewrite HX2 by tauto. done.
      * by rewrite Hy2.
  - split; [|cbn; tauto]. intros _. by exists X, y.
Qed.

Lemma check_shapes_spec (X y : ndarray R) :
  match check_shapes X y with
  | Returned _ => 1 < length (shape y) ∧ shape y = shape X
  | Raised e => ShapeError e ∧ (¬ 1 < length (shape y) ∨ shape y ≠ shape X)
  end.
Proof.
  unfold check_shapes, ShapeError. repeat case_bool_decide; tauto.
Qed.

(** C4: for inputs with at least one sample and, when [size] is given, a
    non-empty [size], [fit] raises a shape error exactly when the reshape
    does not preserve the number of elements per sample, or [y] has rank
    1 after the reshape, or the shapes of [X] and [y] differ after the
    reshape; otherwise the validation passes and [fit] goes on to
    discretize the reshaped [X].  The reshape is the one
    [_reshape_feature] performs: to [size], or to the array's own spatial
    shape under the half-spectrum exception. *)
Theorem fit_shape_error_iff (X y : ndarray R) (size : option (list nat))
    (w : state R C Domain) (nX ny : nat) (sX sy : list nat) :
  shape X = nX :: sX → shape y = ny :: sy → 0 < nX → 0 < ny →
  (∀ sz, size = Some sz → sz ≠ []) →
  ((∃ e, (fit' X y size w).2 = Raised e ∧ ShapeError e)
     ↔ shapes_rejected X y size)
  ∧ (¬ shapes_rejected X y size →
       ∃ X', shape X' = new_shape X size
             ∧ Discretize (next w) X' ∈ calls (fit' X y size w).1).
Proof.
  intros HX Hy HnX Hny Hsize.
  destruct (reshape_inputs_spec X y size nX ny sX sy HX Hy HnX Hny Hsize)
    as [Hok Hbad].
  assert (1 ≤ length (new_shape y size)) as Hrank.
  { destruct size; cbn; [lia|]. rewrite Hy. cbn. lia. }
  rewrite fit_unfold. unfold shapes_rejected.
  destruct (decide (count_preserved y size ∧ count_preserved X size))
    as [Hc|Hc].
  2:{ rewrite (Hbad Hc). cbn [snd].
      assert (¬ count_preserved y size ∨ ¬ count_preserved X size) as Hc'
        by (destruct (decide (count_preserved y size)); tauto).
      split; [|tauto]. split; [tauto|].
      intros _. eexists. split; [done|]. unfold ShapeError. tauto. }
  destruct (Hok Hc) as (X' & y' & -> & HX' & Hy'). cbn [fst snd].
  pose proof (check_shapes_spec X' y') as Hchk.
  rewrite HX', Hy' in Hchk.
  destruct (check_shapes X' y') as [[]|e].
  - destruct (calibrate' _ _ X' y' (recreated w)) as [w' r] eqn:Hcal.
    apply calibrate_spec in Hcal.
    destruct Hcal as (_ & _ & _ & _ & [rest Hcalls] & Hr). cbn [fst snd].
    destruct Hchk as [Hlen Heq]. split; [split|].
    + intros (e & -> & He). by destruct Hr as [Hr _].
    + intros [? | [? | ?]]; [tauto | lia | congruence].
    + intros _. exists X'. split; [done|]. rewrite Hcalls.
      apply elem_of_app. right. apply elem_of_cons. by left.
  - cbn [snd]. destruct Hchk as [He Hwhy]. split; [split|].
    + intros _. destruct Hwhy as [?|?]; [right; left; lia|].
      right. right. congruence.
    + intros _. by exists e.
    + intros Hn. exfalso. apply Hn.
      destruct Hwhy as [?|?]; [right; left; lia|]. right. right. congruence.
Qed.

End FitProperties.

(** ** The claims on a concrete run *)

Lemma fit_shape_error_state_witness :
  (Example.fit Example.X122 Example.y4 None Example.w0).1
    = recreated Example.w0.
Proof.
  refine (proj1 (fit_shape_error_state 0%Z Example.discretize Example._fftn
                   Example._get_basis_slice Example.lstsq
                   Example.X122 Example.y4 None Example.w0 _
                   (RuntimeError "The shape of y is incorrect.") _ _)).
  - vm_compute. reflexivity.
  - left. reflexivity.
Defined.

(** C3 (as stated) fails: [fit] on a [y] of rank 1 raises the shape
    error, and the model's [basis] is then another instance, with
    [n_states = 2] where the basis held before has [n_states = 3]. *)
Lemma fit_shape_error_replaces_basis :
  (Example.fit Example.X122 Example.y4 None Example.w0).2
    = Raised (RuntimeError "The shape of y is incorrect.")
  ∧ ShapeError (RuntimeError "The shape of y is incorrect.")
  ∧ self (Example.fit Example.X122 Example.y4 None Example.w0).1
      ≠ self Example.w0
  ∧ b_n_states
      (heap (Example.fit Example.X122 Example.y4 None Example.w0).1
         (basis (self (Example.fit Example.X122 Example.y4 None Example.w0).1)))
      ≠ b_n_states (heap Example.w0 (basis (self Example.w0))).
Proof.
  split; [vm_compute; reflexivity|].
  split; [left; reflexivity|].
  split; vm_compute; discriminate.
Qed.

Lemma fit_recreates_basis_witness :
  basis (self (Example.fit Example.X122 Example.X122 None Example.w0).1)
    ≠ basis (self Example.w0).
Proof.
  refine (proj1 (proj2 (proj2
            (fit_recreates_basis 0%Z Example.discretize Example._fftn
               Example._get_basis_slice Example.lstsq
               Example.X122 Example.X122 None Example.w0 _)))).
  vm_compute. lia.
Defined.

Lemma fit_constructs_filter_witness :
  ∃ X' y' n s ax1 X_ ax2 FX ax3 Fy Fkernel,
    reshape_inputs Example.X122 Example.X122 None = Returned (X', y')
    ∧ shape y' = n :: s
    ∧ Example.discretize
        (basis_new (b_class (heap Example.w0 (basis (self Example.w0))))
           (n_states (self Example.w0)) (domain (self Example.w0))) X'
        = (ax1, inr X_)
    ∧ Example._fftn
        (mk_basis (b_class (heap Example.w0 (basis (self Example.w0))))
           (n_states (self Example.w0)) (domain (self Example.w0)) ax1)
        X_ (n_jobs (self Example.w0)) = (ax2, inr FX)
    ∧ Example._fftn
        (mk_basis (b_class (heap Example.w0 (basis (self Example.w0))))
           (n_states (self Example.w0)) (domain (self Example.w0)) ax2)
        y' (n_jobs (self Example.w0)) = (ax3, inr Fy)
    ∧ fit_kernel 0%Z Example._get_basis_slice Example.lstsq
        (mk_basis (b_class (heap Example.w0 (basis (self Example.w0))))
           (n_states (self Example.w0)) (domain (self Example.w0)) ax3)
        FX Fy = Returned Fkernel
    ∧ basis (self (Example.fit Example.X122 Example.X122 None Example.w0).1)
        = next Example.w0
    ∧ heap (Example.fit Example.X122 Example.X122 None Example.w0).1
        (next Example.w0)
        = mk_basis (b_class (heap Example.w0 (basis (self Example.w0))))
            (n_states (self Example.w0)) (domain (self Example.w0)) ax3
    ∧ _filter (self (Example.fit Example.X122 Example.X122 None Example.w0).1)
        = Some (Filter (add_axis Fkernel)
                  (basis (self (Example.fit Example.X122 Example.X122 None
                                  Example.w0).1))
                  ((n - 1) :: s) (n_jobs (self Example.w0))).
Proof.
  apply (fit_constructs_filter 0%Z Example.discretize Example._fftn
           Example._get_basis_slice Example.lstsq
           Example.X122 Example.X122 None Example.w0).
  vm_compute. reflexivity.
Defined.

(** C2 (as stated) fails: for a [y] of shape [(1, 2, 2)] the filter is
    constructed with the shape [(0, 2, 2)] of [y[1:]], not with
    [y.shape[1:] = (2, 2)]. *)
Lemma fit_filter_shape_is_not_spatial :
  (Example.fit Example.X122 Example.X122 None Example.w0).2 = Returned tt
  ∧ ∃ f, _filter (self (Example.fit Example.X122 Example.X122 None
                          Example.w0).1) = Some f
         ∧ f_shape f = [0; 2; 2]
         ∧ f_shape f ≠ tuple_from1 (shape Example.X122).
Proof.
  split; [vm_compute; reflexivity|].
  eexists. split; [vm_compute; reflexivity|].
  split; [reflexivity|]. vm_compute. discriminate.
Qed.

Lemma fit_shape_error_iff_witness :
  (∃ e, (Example.fit Example.X122 Example.y14 (Some [2; 2]) Example.w0).2
          = Raised e ∧ ShapeError e)
  ↔ shapes_rejected Example.X122 Example.y14 (Some [2; 2]).
Proof.
  refine (proj1 (fit_shape_error_iff 0%Z Example.discretize Example._fftn
                   Example._get_basis_slice Example.lstsq
                   Example.X122 Example.y14 (Some [2; 2]) Example.w0
                   1 1 [2; 2] [4] _ _ _ _ _)).
  - reflexivity.
  - reflexivity.
  - lia.
  - lia.
  - intros sz [= <-]. discriminate.
Defined.

(** ** Resizing the kernel *)

Section ResizeProperties.

Context {R C Domain : Type}.
Variable rzero : R.
Variable to_real : ndarray C → ndarray R.
Variable to_frequency : ndarray R → ndarray C.

Local Abbreviation chunks' := (FilterModel.chunks).
Local Abbreviation resize_list' := (FilterModel.resize_list).
Local Abbreviation resized_shape' := (FilterModel.resized_shape).
Local Abbreviation resize_nd' := (FilterModel.resize_nd rzero).

Lemma length_chunks {A} (m n : nat) (l : list A) :
  length (chunks' m n l) = n.
Proof. revert l. induction n as [|n IH]; intros l; cbn; [done|]. by rewrite IH. Qed.

Lemma Forall_length_chunks {A} (m n : nat) (l : list A) :
  length l = n * m → Forall (λ b, length b = m) (chunks' m n l).
Proof.
  revert l. induction n as [|n IH]; intros l Hl; cbn; constructor.
  - rewrite length_take. lia.
  - apply IH. rewrite length_drop. lia.
Qed.

Lemma concat_chunks {A} (m n : nat) (l : list A) :
  length l = n * m → concat (chunks' m n l) = l.
Proof.
  revert l. induction n as [|n IH]; intros l Hl; cbn.
  - by destruct l.
  - rewrite IH by (rewrite length_drop; lia). apply take_drop.
Qed.

Lemma chunks_concat {A} (m : nat) (bs : list (list A)) :
  Forall (λ b, length b = m) bs → chunks' m (length bs) (concat bs) = bs.
Proof.
  induction 1 as [|b bs Hb Hbs IH]; cbn; [done|].
  rewrite take_app_length' by done. rewrite drop_app_length' by done.
  by rewrite IH.
Qed.

Lemma length_concat_const {A} (m : nat) (bs : list (list A)) :
  Forall (λ b, length b = m) bs → length (concat bs) = length bs * m.
Proof.
  induction 1 as [|b bs Hb Hbs IH]; cbn; [done|].
  rewrite length_app, IH. lia.
Qed.

Lemma length_resize_list {A} (z : A) (n n' : nat) (l : list A) :
  length l = n → length (resize_list' z n n' l) = n'.
Proof.
  intros Hl. unfold FilterModel.resize_list. case_decide.
  - rewrite !length_app, !length_replicate.
    pose proof (Nat.Div0.div_le_upper_bound (n' - n) 2 (n' - n)). lia.
  - rewrite length_take, length_drop.
    pose proof (Nat.Div0.div_le_upper_bound (n - n') 2 (n - n')). lia.
Qed.

Lemma Forall_resize_list {A} (P : A → Prop) (z : A) (n n' : nat)
    (l : list A) :
  P z → Forall P l → Forall P (resize_list' z n n' l).
Proof.
  intros Hz Hl. unfold FilterModel.resize_list. case_decide.
  - rewrite !Forall_app. repeat split; try done; by apply Forall_replicate.
  - by apply Forall_take, Forall_drop.
Qed.

(** Truncating undoes padding, whatever the padded entries are. *)
Lemma resize_list_unpad {A} (z x : A) (n n' : nat) (l : list A) :
  length l = n → n ≤ n' →
  resize_list' z n' n
    (replicate (n' - n - (n' - n) `div` 2) x ++ l
       ++ replicate ((n' - n) `div` 2) x) = l.
Proof.
  intros Hl Hle. unfold FilterModel.resize_list. case_decide.
  - assert (n' = n) as -> by lia. rewrite Nat.sub_diag. cbn.
    by rewrite !app_nil_r.
  - rewrite drop_app_length' by (by rewrite length_replicate).
    by rewrite take_app_length'.
Qed.

Lemma resized_shape_same_length (s t : list nat) :
  length s = length t → resized_shape' s t = t.
Proof.
  revert t. induction s as [|n s IH]; intros [|n' t] Hlen; try done.
  cbn. rewrite IH; [done | cbn in Hlen; lia].
Qed.

Lemma length_resize_nd (s t : list nat) (d : list R) :
  length d = numel s → length (resize_nd' s t d) = numel (resized_shape' s t).
Proof.
  revert t d. induction s as [|n s IH]; intros [|n' t] d Hd; try done.
  cbn [FilterModel.resize_nd FilterModel.resized_shape].
  rewrite numel_cons in *.
  rewrite (length_concat_const (numel (resized_shape' s t))).
  - rewrite length_resize_list; [done|].
    by rewrite length_fmap, length_chunks.
  - apply Forall_resize_list; [apply length_replicate|].
    apply Forall_fmap. eapply Forall_impl; [by apply Forall_length_chunks|].
    intros blk Hblk. cbn. by apply IH.
Qed.

Lemma resize_nd_roundtrip (s t : list nat) (d : list R) :
  Forall2 le s t → length d = numel s →
  resize_nd' t s (resize_nd' s t d) = d.
Proof.
  intros Hst. revert d.
  induction Hst as [|n n' s t Hn Hst IH]; intros d Hd; [done|].
  cbn [FilterModel.resize_nd]. rewrite numel_cons in Hd.
  pose proof (Forall2_length _ _ _ Hst) as Hlen.
  rewrite (resized_shape_same_length s t Hlen).
  rewrite (resized_shape_same_length t s (eq_sym Hlen)).
  set (blocks := resize_nd' s t <$> chunks' (numel s) n d).
  assert (length blocks = n) as Hblocks
    by (unfold blocks; by rewrite length_fmap, length_chunks).
  assert (Forall (λ blk, length blk = numel t) blocks) as Hlens.
  { unfold blocks. apply Forall_fmap.
    eapply Forall_impl; [by apply Forall_length_chunks|].
    intros blk Hblk. cbn. rewrite length_resize_nd by done.
    by rewrite resized_shape_same_length. }
  set (padded := resize_list' (replicate (numel t) rzero) n n' blocks).
  assert (chunks' (numel t) n' (concat padded) = padded) as ->.
  { rewrite <- (length_resize_list (replicate (numel t) rzero) n n' blocks Hblocks)
      at 1.
    apply chunks_concat, Forall_resize_list; [apply length_replicate | done]. }
  unfold padded, FilterModel.resize_list at 2. rewrite decide_True by done.
  rewrite !fmap_app, !fmap_replicate.
  rewrite resize_list_unpad; [|by rewrite length_fmap|done].
  unfold blocks. rewrite <- list_fmap_compose.
  rewrite <- (concat_chunks (numel s) n d) at 2 by lia.
  f_equal. apply list_eq_Forall2, Forall2_fmap_l, Forall_Forall2_diag.
  eapply Forall_impl; [apply (Forall_length_chunks (numel s) n d); lia|].
  intros blk Hblk. cbn. by apply IH.
Qed.

Local Abbreviation resize' := (FilterModel.resize rzero to_real to_frequency).
Local Abbreviation resize_coeff' := (resize_coeff (Domain:=Domain) resize').
Local Abbreviation coeff' :=
  (coeff (Domain:=Domain) (FilterModel._frequency_2_real to_real)).

Lemma resize_target (c H : nat) (S B : list nat) :
  take 1 (c :: S ++ [H]) ++ B
    ++ drop (length (c :: S ++ [H]) - 1) (c :: S ++ [H])
  = c :: B ++ [H].
Proof.
  change (length (c :: S ++ [H]) - 1) with (length (S ++ [H]) - 0).
  rewrite Nat.sub_0_r, length_app, Nat.add_1_r.
  change (drop (Datatypes.S (length S)) (c :: S ++ [H]))
    with (drop (length S) (S ++ [H])).
  by rewrite drop_app_length.
Qed.

Lemma resize_kernel (f : filter C) (c H : nat) (S B : list nat) :
  shape (to_real (_Fkernel f)) = c :: S ++ [H] → length S = length B →
  resize' f B =
    inr (Filter
           (to_frequency
              (mk_ndarray (c :: B ++ [H])
                 (resize_nd' (c :: S ++ [H]) (c :: B ++ [H])
                    (data (to_real (_Fkernel f))))))
           (f_basis f) (f_shape f) (f_n_jobs f)).
Proof.
  intros Hshape Hlen.
  unfold FilterModel.resize, FilterModel.resize_array.
  rewrite Hshape, resize_target, resized_shape_same_length; [done|].
  cbn. rewrite !length_app. cbn. lia.
Qed.

Lemma resize_coeff_run (w : state R C Domain) (f : filter C)
    (size : list nat) :
  _filter (self w) = Some f →
  ∃ f' w', resize' f size = inr f'
           ∧ resize_coeff' size w = (w', Returned tt)
           ∧ _filter (self w') = Some f'
           ∧ basis (self w') = basis (self w)
           ∧ n_states (self w') = n_states (self w)
           ∧ domain (self w') = domain (self w)
           ∧ n_jobs (self w') = n_jobs (self w).
Proof.
  intros Hf. eexists _, _. split; [reflexivity|].
  unfold resize_coeff, get_self, log, filter_result, lift, set_filter.
  unfold mbind, method_bind. rewrite Hf. cbn. done.
Qed.

(** C7: with exact transforms (transforming a real-space kernel forward
    and back gives it again, and the stored kernel is the forward
    transform of its real-space form), resizing a kernel of spatial size
    [S] to a size [B] that is at least [S] on every axis and then back to
    [S] leaves the stored kernel, and so the model and [coeff], as they
    were. *)
Theorem resize_coeff_roundtrip (w : state R C Domain) (f : filter C)
    (c H : nat) (S B : list nat) :
  _filter (self w) = Some f →
  (∀ k, to_real (to_frequency k) = k) →
  to_frequency (to_real (_Fkernel f)) = _Fkernel f →
  shape (to_real (_Fkernel f)) = c :: S ++ [H] →
  wf (to_real (_Fkernel f)) →
  Forall2 le S B →
  ∃ w1 w2,
    resize_coeff' B w = (w1, Returned tt)
    ∧ resize_coeff' S w1 = (w2, Returned tt)
    ∧ _filter (self w2) = Some f
    ∧ self w2 = self w
    ∧ (coeff' w2).2 = (coeff' w).2.
Proof.
  intros Hf Hinv Hstored Hshape Hwf HSB.
  destruct (resize_coeff_run w f B Hf)
    as (f1 & w1 & Hf1 & Hrun1 & Hw1 & Hb1 & Hn1 & Hd1 & Hj1).
  destruct (resize_coeff_run w1 f1 S Hw1)
    as (f2 & w2 & Hf2 & Hrun2 & Hw2 & Hb2 & Hn2 & Hd2 & Hj2).
  assert (Forall2 le (c :: S ++ [H]) (c :: B ++ [H])) as Hle.
  { constructor; [done|]. apply Forall2_app; [done|]. by repeat constructor. }
  pose proof (Forall2_length _ _ _ HSB) as Hlen.
  assert (f2 = f) as ->.
  { rewrite (resize_kernel f c H S B Hshape Hlen) in Hf1.
    apply (inj inr) in Hf1 as <-.
    rewrite (resize_kernel _ c H B S) in Hf2;
      [|by cbn [_Fkernel]; rewrite Hinv|done].
    apply (inj inr) in Hf2 as <-. cbn [_Fkernel f_basis f_shape f_n_jobs].
    rewrite Hinv. cbn [data].
    rewrite resize_nd_roundtrip by (done || by rewrite <- Hshape).
    rewrite <- Hshape.
    replace (mk_ndarray (shape (to_real (_Fkernel f)))
                        (data (to_real (_Fkernel f))))
      with (to_real (_Fkernel f)) by (by destruct (to_real (_Fkernel f))).
    rewrite Hstored. by destruct f. }
  assert (self w2 = self w) as Hself.
  { destruct (self w2), (self w). cbn in *. congruence. }
  exists w1, w2. repeat split; try done.
  unfold coeff, get_self, log, filter_result, lift.
  unfold mbind, method_bind. rewrite Hself, Hf. done.
Qed.

End ResizeProperties.

(** ** The kernel claims on a concrete run *)

Lemma fit_kernel_solves_every_bin_witness :
  ∃ Fkernel,
    fit_kernel 0%Z Example._get_basis_slice Example.lstsq (Example.heap0 0)
      Example.FX122 Example.Fy12 = Returned Fkernel
    ∧ shape Fkernel = [2] ++ [2]
    ∧ ∀ ijk, ijk ∈ ndindex [2] →
        bin_solved 0%Z Example._get_basis_slice Example.lstsq
          (Example.heap0 0) Example.FX122 Example.Fy12 Fkernel 2 ijk.
Proof.
  apply (fit_kernel_solves_every_bin 0%Z Example._get_basis_slice
           Example.lstsq (Example.heap0 0) Example.FX122 Example.Fy12
           1 2 [2]).
  - reflexivity.
  - reflexivity.
  - reflexivity.
  - intros ijk _. split.
    + unfold Example._get_basis_slice. by case_bool_decide.
    + intros a rhs _ _. eexists. split; [reflexivity|].
      split; [reflexivity|]. apply length_replicate.
Defined.

Lemma resize_coeff_roundtrip_witness :
  ∃ w1 w2,
    resize_coeff (FilterModel.resize 0%Z (λ k, k) (λ k, k)) [4]
      Example.w_fitted = (w1, Returned tt)
    ∧ resize_coeff (FilterModel.resize 0%Z (λ k, k) (λ k, k)) [2] w1
        = (w2, Returned tt)
    ∧ _filter (self w2) = Some Example.kernel_121
    ∧ self w2 = self Example.w_fitted
    ∧ (coeff (FilterModel._frequency_2_real (λ k, k)) w2).2
        = (coeff (FilterModel._frequency_2_real (λ k, k)) Example.w_fitted).2.
Proof.
  apply (resize_coeff_roundtrip 0%Z (λ k, k) (λ k, k)
           Example.w_fitted Example.kernel_121 1 1 [2] [4]).
  - reflexivity.
  - reflexivity.
  - reflexivity.
  - reflexivity.
  - reflexivity.
  - repeat constructor.
Defined.

(** The doctest of [resize_coeff]: a kernel of size [(5, 4)] resized to
    [(10, 7)] has three rows of zeros before it and two after, two
    columns of zeros before it and one after. *)
Example resize_doctest :
  FilterModel.resize 0%Z (λ k, k) (λ k, k) Example.kernel_1541 [10; 7]
  = inr (Filter (mk_ndarray [1; 10; 7; 1]
           [0; 0;  0;  0;  0;  0; 0;
            0; 0;  0;  0;  0;  0; 0;
            0; 0;  0;  0;  0;  0; 0;
            0; 0;  0;  1;  2;  3; 0;
            0; 0;  4;  5;  6;  7; 0;
            0; 0;  8;  9; 10; 11; 0;
            0; 0; 12; 13; 14; 15; 0;
            0; 0; 16; 17; 18; 19; 0;
            0; 0;  0;  0;  0;  0; 0;
            0; 0;  0;  0;  0;  0; 0]%Z) 0 [1; 5; 4] 1).
Proof. vm_compute. reflexivity. Qed.

(** * Further properties of the methods *)

(** ** The reshape helper *)

(** X1: what [_reshape_feature] returns has the buffer, the sample count
    and the number of elements of its argument, and is well formed when
    the argument is. *)
Lemma reshape_feature_keeps_buffer {A} (X X' : ndarray A) (size : list nat) :
  _reshape_feature X size = Returned X' →
  data X' = data X
  ∧ head (shape X') = head (shape X)
  ∧ numel (shape X') = numel (shape X)
  ∧ (wf X → wf X').
Proof.
  unfold _reshape_feature, tuple_last, tuple_first.
  destruct (last (shape X)) as [xl|]; [|done].
  destruct (last size) as [sl|]; [|done].
  cbn [mbind outcome_bind].
  destruct (shape X) as [|n rest] eqn:HX; [done|].
  cbn [mbind outcome_bind]. unfold reshape. rewrite HX.
  case_decide as Hnum; [|done]. intros [= <-]. cbn [data shape].
  repeat split; try done. unfold wf. cbn [data shape]. rewrite HX.
  intros Hwf. etrans; [exact Hwf | symmetry; exact Hnum].
Qed.

Lemma reshape_feature_keeps_buffer_witness :
  data (mk_ndarray [2; 2; 2] (seq 0 8)) = data (mk_ndarray [2; 4] (seq 0 8))
  ∧ head (shape (mk_ndarray [2; 2; 2] (seq 0 8)))
      = head (shape (mk_ndarray [2; 4] (seq 0 8)))
  ∧ numel (shape (mk_ndarray [2; 2; 2] (seq 0 8)))
      = numel (shape (mk_ndarray [2; 4] (seq 0 8)))
  ∧ (wf (mk_ndarray [2; 4] (seq 0 8)) → wf (mk_ndarray [2; 2; 2] (seq 0 8))).
Proof.
  apply (reshape_feature_keeps_buffer (mk_ndarray [2; 4] (seq 0 8))
           (mk_ndarray [2; 2; 2] (seq 0 8)) [2; 2]).
  reflexivity.
Defined.

(** X2: reshaping again to the same size changes nothing: when
    [_reshape_feature(X, size)] returns [X'], [_reshape_feature(X', size)]
    returns [X'] as well. *)
Lemma reshape_feature_idempotent {A} (X X' : ndarray A) (size : list nat) :
  _reshape_feature X size = Returned X' →
  _reshape_feature X' size = Returned X'.
Proof.
  unfold _reshape_feature, tuple_last, tuple_first.
  destruct (last (shape X)) as [xl|] eqn:HlX; [|done].
  destruct (last size) as [sl|] eqn:Hls; [|done].
  cbn [mbind outcome_bind].
  destruct (shape X) as [|n rest] eqn:HX; [done|].
  cbn [mbind outcome_bind]. rewrite <- bool_decide_and.
  case_bool_decide as Hc; unfold reshape at 1; rewrite HX;
    (case_decide as Hnum; [|done]); intros [= <-].
  - cbn [shape tuple_from1 tail]. rewrite HlX. cbn [mbind outcome_bind].
    rewrite <- bool_decide_and, bool_decide_eq_true_2.
    + cbn. apply (reshape_own_shape (mk_ndarray (n :: rest) (data X))).
    + unfold ndim in *. cbn [shape]. by rewrite HX in Hc.
  - cbn [shape]. assert (last (n :: size) = Some sl) as ->.
    { destruct size; [done|]. by rewrite last_cons_cons. }
    cbn [mbind outcome_bind]. rewrite <- bool_decide_and.
    case_bool_decide; cbn;
      apply (reshape_own_shape (mk_ndarray (n :: size) (data X))).
Qed.

Lemma reshape_feature_idempotent_witness :
  _reshape_feature (mk_ndarray [2; 2; 2] (seq 0 8)) [2; 2]
    = Returned (mk_ndarray [2; 2; 2] (seq 0 8)).
Proof.
  apply (reshape_feature_idempotent (mk_ndarray [2; 4] (seq 0 8))).
  reflexivity.
Defined.

(** X3: [_reshape_feature] raises [IndexError] on a 0-d array and on an
    empty [size], where [X.shape[-1]] or [size[-1]] does not exist. *)
Lemma reshape_feature_index_error {A} (X : ndarray A) (size : list nat) :
  shape X = [] ∨ size = [] →
  ∃ msg, _reshape_feature X size = Raised (IndexError msg).
Proof.
  intros Hempty. unfold _reshape_feature, tuple_last.
  destruct (last (shape X)) as [xl|] eqn:HlX; [|by eexists].
  destruct Hempty as [HX | ->]; [by rewrite HX in HlX|]. by eexists.
Qed.

Lemma reshape_feature_index_error_witness :
  ∃ msg, _reshape_feature (mk_ndarray [2; 4] (seq 0 8)) []
           = Raised (IndexError msg).
Proof.
  apply (reshape_feature_index_error (mk_ndarray [2; 4] (seq 0 8)) []).
  right. reflexivity.
Defined.

(** X4: on an array with a sample axis and a non-empty [size], the only
    exception of [_reshape_feature] is the [ValueError] of the reshape,
    raised exactly when the new shape has another number of elements than
    the array. *)
Lemma reshape_feature_outcome {A} (X : ndarray A) (size : list nat)
    (n : nat) (rest : list nat) :
  shape X = n :: rest → size ≠ [] →
  match _reshape_feature X size with
  | Returned X' =>
      shape X' = n :: target_size X size
      ∧ n * numel (target_size X size) = numel (shape X)
  | Raised e =>
      e = ValueError "cannot reshape array"
      ∧ n * numel (target_size X size) ≠ numel (shape X)
  end.
Proof.
  intros HX Hsize. rewrite (reshape_feature_target X size n rest HX Hsize).
  unfold reshape. rewrite numel_cons. case_decide; done.
Qed.

Lemma reshape_feature_outcome_witness :
  match _reshape_feature (mk_ndarray [2; 4] (seq 0 8)) [5] with
  | Returned X' =>
      shape X' = 2 :: target_size (mk_ndarray [2; 4] (seq 0 8)) [5]
      ∧ 2 * numel (target_size (mk_ndarray [2; 4] (seq 0 8)) [5])
        = numel (shape (mk_ndarray [2; 4] (seq 0 8)))
  | Raised e =>
      e = ValueError "cannot reshape array"
      ∧ 2 * numel (target_size (mk_ndarray [2; 4] (seq 0 8)) [5])
        ≠ numel (shape (mk_ndarray [2; 4] (seq 0 8)))
  end.
Proof.
  apply (reshape_feature_outcome (mk_ndarray [2; 4] (seq 0 8)) [5] 2 [4]).
  - reflexivity.
  - discriminate.
Defined.

(** ** The loop of [fit] *)

Lemma for_loop_invariant {A S} (P : S → Prop) (body : S → A → outcome S)
    (l : list A) (s s' : S) :
  (∀ s x s', P s → body s x = Returned s' → P s') →
  P s → for_loop body l s = Returned s' → P s'.
Proof.
  intros Hbody. revert s. induction l as [|x l IH]; intros s Hs; cbn.
  - by intros [= <-].
  - destruct (body s x) as [s1|e] eqn:Hstep; [|done]. cbn.
    apply IH. by eapply Hbody.
Qed.

Lemma setitem_keeps_shape {A} (X X' : ndarray A) (idx : list nat) (x : A) :
  setitem X idx x = Returned X' →
  shape X' = shape X ∧ length (data X') = length (data X).
Proof.
  unfold setitem. case_decide; [|done]. intros [= <-]. cbn.
  by rewrite length_insert.
Qed.

Lemma setitem_ints_slice_keeps_shape {A} (X X' k : ndarray A)
    (ijk : list nat) (s1 : slice) :
  setitem_ints_slice X ijk s1 k = Returned X' →
  shape X' = shape X ∧ length (data X') = length (data X).
Proof.
  unfold setitem_ints_slice.
  destruct (last (shape X)) as [H|]; [|done]. case_decide; [|done].
  destruct (positions s1 H) as [cols|]; [|done]. cbn [mbind outcome_bind].
  destruct (broadcast_to k (length cols)) as [vals|]; [|done].
  cbn [mbind outcome_bind].
  apply (for_loop_invariant
           (λ Y, shape Y = shape X ∧ length (data Y) = length (data X)));
    [|done].
  intros Y hv Y' [HY1 HY2] [HY1' HY2']%setitem_keeps_shape. split; congruence.
Qed.

Section MoreFitProperties.

Context {R C Domain : Type}.
Variable czero : C.
Variable discretize :
  basis_obj Domain → ndarray R → option (list nat) * (string + ndarray R).
Variable _fftn :
  basis_obj Domain → ndarray R → Z → option (list nat) * (string + ndarray C).
Variable _get_basis_slice : basis_obj Domain → list nat → slice → slice.
Variable lstsq : ndarray C → ndarray C → string + ndarray C.
Variable convolve : filter C → ndarray R → string + ndarray R.

Local Abbreviation fit_bin' := (fit_bin _get_basis_slice lstsq).
Local Abbreviation fit_kernel' := (fit_kernel czero _get_basis_slice lstsq).
Local Abbreviation calibrate' :=
  (calibrate czero discretize _fftn _get_basis_slice lstsq).
Local Abbreviation fit' := (fit czero discretize _fftn _get_basis_slice lstsq).
Local Abbreviation predict' := (predict (C:=C) discretize convolve).

(** X5: whenever the loop of [fit] returns a kernel, the kernel has the
    shape [FX.shape[1:]] and a buffer of that many entries, whatever the
    basis and the solver do. *)
Lemma fit_kernel_shape (b : basis_obj Domain) (FX Fy Fkernel : ndarray C) :
  fit_kernel' b FX Fy = Returned Fkernel →
  shape Fkernel = tuple_from1 (shape FX) ∧ wf Fkernel.
Proof.
  unfold fit_kernel.
  apply (for_loop_invariant
           (λ Fk, shape Fk = tuple_from1 (shape FX) ∧ wf Fk)).
  - intros Fk ijk Fk' [HFk Hwf]. unfold fit_bin.
    destruct (getitem_slice_ints_slice FX _ _ _) as [a|]; [|done].
    destruct (getitem_slice_ints Fy _ _) as [rhs|]; [|done].
    cbn [mbind outcome_bind].
    destruct (lstsq_result (lstsq a rhs)) as [k|]; [|done].
    cbn [mbind outcome_bind].
    intros [Hs Hl]%setitem_ints_slice_keeps_shape.
    unfold wf in *. split; congruence.
  - split; [done|]. unfold wf, zeros. cbn. apply length_replicate.
Qed.

(** X6: when a spatial axis is empty there is no bin to solve: the loop
    returns the zero kernel and the solver is not run. *)
Lemma fit_kernel_empty_grid (b : basis_obj Domain) (FX Fy : ndarray C)
    (n H : nat) (s : list nat) :
  shape FX = n :: s ++ [H] → 0 ∈ s →
  fit_kernel' b FX Fy = Returned (zeros czero (s ++ [H])).
Proof.
  intros HFX Hzero. unfold fit_kernel, tuple_from1, tuple_from1_to_last.
  rewrite HFX. cbn [tail]. rewrite removelast_last.
  assert (ndindex s = []) as ->; [|done].
  destruct (ndindex s) as [|ijk bins] eqn:Hnd; [done|]. exfalso.
  assert (valid_index s ijk) as Hv by (apply elem_of_ndindex; rewrite Hnd; by left).
  apply list_elem_of_lookup in Hzero as [i Hi].
  destruct (Forall2_lookup_r _ _ _ _ _ Hv Hi) as (x & _ & Hx). lia.
Qed.

(** ** Exceptions and effects of [fit] *)

Lemma reshape_feature_raises {A} (X : ndarray A) (size : list nat) (e : exn) :
  _reshape_feature X size = Raised e →
  (∃ msg, e = IndexError msg) ∨ e = ValueError "cannot reshape array".
Proof.
  unfold _reshape_feature, tuple_last, tuple_first.
  destruct (last (shape X)); [|intros [= <-]; eauto].
  destruct (last size); [|intros [= <-]; eauto].
  cbn [mbind outcome_bind].
  destruct (shape X); [intros [= <-]; eauto|].
  cbn [mbind outcome_bind]. unfold reshape. case_decide; [done|].
  intros [= <-]. by right.
Qed.

Lemma reshape_feature_rank {A} (X X' : ndarray A) (size : list nat) :
  _reshape_feature X size = Returned X' → 1 < length (shape X').
Proof.
  unfold _reshape_feature, tuple_last, tuple_first.
  destruct (last (shape X)) as [xl|]; [|done].
  destruct (last size) as [sl|] eqn:Hls; [|done].
  cbn [mbind outcome_bind].
  destruct (shape X) as [|n rest] eqn:HX; [done|].
  cbn [mbind outcome_bind]. rewrite <- bool_decide_and.
  assert (0 < length size) by (destruct size; [done | cbn; lia]).
  case_bool_decide as Hc; unfold reshape; (case_decide; [|done]);
    intros [= <-]; cbn; [|lia].
  destruct Hc as [_ Hc]. unfold ndim in Hc. rewrite HX in Hc. cbn in Hc. lia.
Qed.

Lemma reshape_inputs_raises (X y : ndarray R) (size : option (list nat))
    (e : exn) :
  reshape_inputs X y size = Raised e →
  (∃ msg, e = IndexError msg) ∨ e = ValueError "cannot reshape array".
Proof.
  destruct size as [sz|]; [|done]. cbn [reshape_inputs].
  destruct (_reshape_feature y sz) eqn:Hy;
    [|intros [= <-]; by eapply reshape_feature_raises].
  cbn [mbind outcome_bind].
  destruct (_reshape_feature X sz) eqn:HX; [done|].
  intros [= <-]. by eapply reshape_feature_raises.
Qed.

Lemma reshape_inputs_rank (X y X' y' : ndarray R) (sz : list nat) :
  reshape_inputs X y (Some sz) = Returned (X', y') → 1 < length (shape y').
Proof.
  cbn [reshape_inputs].
  destruct (_reshape_feature y sz) as [y1|] eqn:Hy; [|done].
  cbn [mbind outcome_bind].
  destruct (_reshape_feature X sz) as [X1|]; [|done].
  intros [= <- <-]. by eapply reshape_feature_rank.
Qed.

Lemma calibrate_raises (l : loc) (jobs : Z) (X y : ndarray R)
    (w w' : state R C Domain) (e : exn) :
  calibrate' l jobs X y w = (w', Raised e) →
  (∃ msg, e = BasisError msg) ∨ solve_exn e.
Proof.
  unfold calibrate, log, call_basis, deref, lift, set_filter.
  unfold mbind, method_bind, mret, method_ret.
  cbn [self heap next calls].
  destruct (discretize (heap w l) X) as [ax1 [msg1|X_]];
    [intros [= <- <-]; eauto|].
  cbn [self heap next calls].
  destruct (_fftn _ X_ jobs) as [ax2 [msg2|FX]]; [intros [= <- <-]; eauto|].
  cbn [self heap next calls].
  destruct (_fftn _ y jobs) as [ax3 [msg3|Fy]]; [intros [= <- <-]; eauto|].
  cbn [self heap next calls].
  destruct (fit_kernel' _ FX Fy) as [Fk|e1] eqn:EFk.
  2:{ intros [= <- <-]. right.
      by apply (fit_kernel_raises czero _get_basis_slice lstsq _ _ _ _ EFk). }
  destruct (drop_first y) as [y1|e1] eqn:Ey1; [done|].
  intros [= <- <-]. right. unfold drop_first in Ey1.
  destruct (shape y); [|done]. by injection Ey1 as <-.
Qed.

Lemma calibrate_calls (l : loc) (jobs : Z) (X y : ndarray R)
    (w w' : state R C Domain) :
  calibrate' l jobs X y w = (w', Returned tt) →
  ∃ X_, (discretize (heap w l) X).2 = inr X_
        ∧ calls w' =
            calls w ++ [Discretize l X; Fftn l X_ jobs; Fftn l y jobs].
Proof.
  unfold calibrate, log, call_basis, deref, lift, set_filter.
  unfold mbind, method_bind, mret, method_ret.
  cbn [self heap next calls].
  destruct (discretize (heap w l) X) as [ax1 [msg1|X_]]; [done|].
  cbn [self heap next calls].
  destruct (_fftn _ X_ jobs) as [ax2 [msg2|FX]]; [done|].
  cbn [self heap next calls].
  destruct (_fftn _ y jobs) as [ax3 [msg3|Fy]]; [done|].
  cbn [self heap next calls].
  destruct (fit_kernel' _ FX Fy) as [Fk|e1]; [|done].
  destruct (drop_first y) as [y1|e1]; [|done].
  intros [= <-]. exists X_. split; [done|]. cbn [calls].
  by rewrite <- !app_assoc.
Qed.

(** X7: without a [size], the rank of [y] is checked first and the
    shapes are compared second: a [y] of rank 0 or 1 gives
    [RuntimeError("The shape of y is incorrect.")] whatever [X] is, and a
    [y] of higher rank whose shape differs from that of [X] gives
    [RuntimeError("X and y must be the same shape.")]; in both cases only
    the basis has been re-created. *)
Lemma fit_without_size_checks (X y : ndarray R) (w : state R C Domain) :
  (¬ 1 < length (shape y) →
     fit' X y None w =
       (recreated w, Raised (RuntimeError "The shape of y is incorrect.")))
  ∧ (1 < length (shape y) → shape y ≠ shape X →
     fit' X y None w =
       (recreated w, Raised (RuntimeError "X and y must be the same shape."))).
Proof.
  rewrite fit_unfold. cbn [reshape_inputs mret outcome_ret fst snd].
  unfold check_shapes. split.
  - intros Hrank. by rewrite bool_decide_eq_true_2.
  - intros Hrank Hne. rewrite bool_decide_eq_false_2 by tauto.
    by rewrite bool_decide_eq_true_2.
Qed.

(** X8: when a [size] is given the rank check cannot fail: the reshaped
    [y] always has a sample axis and at least one spatial axis, so [fit]
    never raises [RuntimeError("The shape of y is incorrect.")]. *)
Lemma fit_with_size_never_rank_error (X y : ndarray R) (sz : list nat)
    (w : state R C Domain) :
  (fit' X y (Some sz) w).2
    ≠ Raised (RuntimeError "The shape of y is incorrect.").
Proof.
  rewrite fit_unfold.
  destruct (reshape_inputs X y (Some sz)) as [[X' y']|e] eqn:Hre.
  - apply reshape_inputs_rank in Hre. cbn [fst snd].
    unfold check_shapes. rewrite bool_decide_eq_false_2 by tauto.
    case_bool_decide; [done|].
    destruct (calibrate' _ _ X' y' (recreated w)) as [w' [[]|e]] eqn:Hcal;
      [done|].
    apply calibrate_raises in Hcal as [[msg ->] | He]; [done|].
    intros [= ->]. done.
  - apply reshape_inputs_raises in Hre as [[msg ->] | ->]; done.
Qed.

(** X10: [fit] never changes [n_states], [domain] or [n_jobs] and
    allocates exactly one basis instance, whatever its outcome; a [fit]
    that raises leaves [_filter] as it was. *)
Lemma fit_keeps_parameters (X y : ndarray R) (size : option (list nat))
    (w w' : state R C Domain) (r : outcome unit) :
  fit' X y size w = (w', r) →
  n_states (self w') = n_states (self w)
  ∧ domain (self w') = domain (self w)
  ∧ n_jobs (self w') = n_jobs (self w)
  ∧ next w' = S (next w)
  ∧ (∀ e, r = Raised e → _filter (self w') = _filter (self w)).
Proof.
  rewrite fit_unfold.
  assert (∀ e, (recreated w, Raised e) = (w', r) →
            n_states (self w') = n_states (self w)
            ∧ domain (self w') = domain (self w)
            ∧ n_jobs (self w') = n_jobs (self w)
            ∧ next w' = S (next w)
            ∧ (∀ e, r = Raised e → _filter (self w') = _filter (self w)))
    as Hearly by (by intros e [= <- <-]).
  destruct (reshape_inputs X y size) as [Xy|e]; [|apply Hearly].
  destruct (check_shapes Xy.1 Xy.2) as [[]|e]; [|apply Hearly].
  intros Hcal. apply calibrate_spec in Hcal.
  destruct Hcal as ((Hn & Hd & Hj & _) & Hnext & _ & _ & _ & Hr).
  repeat split; try done.
  intros e ->. by destruct Hr as [_ Hr].
Qed.

(** X11: a [fit] that returns has constructed one basis instance, then
    called [discretize] once, on the (reshaped) [X], then [_fftn] twice,
    on the discretized [X] and on the (reshaped) [y], both with the job
    count of the model: of the constructor of the basis and of the methods
    [discretize] and [_fftn] these are all its calls, in this order, and
    it has called no method of the filter. *)
Lemma fit_calls_in_order (X y : ndarray R) (size : option (list nat))
    (w w' : state R C Domain) :
  fit' X y size w = (w', Returned tt) →
  ∃ X' y' X_,
    reshape_inputs X y size = Returned (X', y')
    ∧ (discretize (heap (recreated w) (next w)) X').2 = inr X_
    ∧ calls w' =
        calls w
        ++ [NewBasis (b_class (heap w (basis (self w))))
              (n_states (self w)) (domain (self w)) (next w);
            Discretize (next w) X';
            Fftn (next w) X_ (n_jobs (self w));
            Fftn (next w) y' (n_jobs (self w))].
Proof.
  rewrite fit_unfold.
  destruct (reshape_inputs X y size) as [[X' y']|e]; [|done].
  cbn [fst snd]. destruct (check_shapes X' y') as [[]|e]; [|done].
  intros (X_ & HX_ & Hcalls)%calibrate_calls.
  exists X', y', X_. repeat split; try done.
  rewrite Hcalls. cbn [recreated calls]. by rewrite <- app_assoc.
Qed.

End MoreFitProperties.

(** ** [predict], [coeff] and [resize_coeff] *)

Section UseProperties.

Context {R C Domain : Type}.
Variable czero : C.
Variable discretize :
  basis_obj Domain → ndarray R → option (list nat) * (string + ndarray R).
Variable _fftn :
  basis_obj Domain → ndarray R → Z → option (list nat) * (string + ndarray C).
Variable _get_basis_slice : basis_obj Domain → list nat → slice → slice.
Variable lstsq : ndarray C → ndarray C → string + ndarray C.
Variable convolve : filter C → ndarray R → string + ndarray R.
Variable _frequency_2_real : filter C → bool → string + ndarray R.
Variable resize : filter C → list nat → string + filter C.

Local Abbreviation fit' := (fit czero discretize _fftn _get_basis_slice lstsq).
Local Abbreviation predict' := (predict (C:=C) discretize convolve).
Local Abbreviation coeff' := (coeff (Domain:=Domain) _frequency_2_real).
Local Abbreviation resize_coeff' := (resize_coeff (R:=R) (Domain:=Domain) resize).

Lemma fit_sets_filter (X y : ndarray R) (size : option (list nat))
    (w w' : state R C Domain) :
  fit' X y size w = (w', Returned tt) →
  ∃ f, _filter (self w') = Some f ∧ f_basis f = basis (self w').
Proof.
  rewrite fit_unfold.
  destruct (reshape_inputs X y size) as [Xy|e]; [|done].
  destruct (check_shapes Xy.1 Xy.2) as [[]|e]; [|done].
  intros Hcal. apply calibrate_spec in Hcal.
  destruct Hcal as ((_ & _ & _ & Hb) & _ & _ & _ & _
                    & (b & FX & Fy & Fk & y1 & _ & _ & ->)).
  eexists. split; [done|]. by rewrite Hb.
Qed.

Lemma predict_run (X : ndarray R) (w w' : state R C Domain)
    (r : outcome (ndarray R)) :
  predict' X w = (w', r) →
  self w' = self w
  ∧ next w' = next w
  ∧ (∀ l, l ≠ basis (self w) → heap w' l = heap w l)
  ∧ match _filter (self w) with
    | None =>
        w' = w
        ∧ r = Raised (AttributeError "fit() method must be run before predict().")
    | Some f =>
        (∀ msg, r ≠ Raised (AttributeError msg))
        ∧ (∀ y, r = Returned y → shape y = shape X)
    end.
Proof.
  unfold predict, filter_result, get_self, log, call_basis, lift, raise.
  unfold mbind, method_bind. cbn [self heap next calls].
  destruct (_filter (self w)) as [f|]; [|by intros [= <- <-]].
  destruct (_reshape_feature X _) as [X1|e] eqn:HX1.
  2:{ intros [= <- <-]. repeat split; try done. intros msg [= ->].
      apply reshape_feature_raises in HX1 as [[m ?] | ?]; done. }
  cbn [self heap next calls].
  destruct (discretize (heap w (basis (self w))) X1) as [ax [msg1|X_]].
  { intros [= <- <-]. cbn [self heap next calls]. repeat split; try done.
    intros l Hl. by rewrite fn_lookup_insert_ne. }
  cbn [self heap next calls].
  destruct (convolve f X_) as [msg2|y1].
  { intros [= <- <-]. cbn [self heap next calls]. repeat split; try done.
    intros l Hl. by rewrite fn_lookup_insert_ne. }
  intros [= <- <-]. cbn [self heap next calls]. repeat split; try done.
  - intros l Hl. by rewrite fn_lookup_insert_ne.
  - intros msg. unfold reshape. by case_decide.
  - intros y. unfold reshape. case_decide; [|done]. by intros [= <-].
Qed.

Lemma coeff_run (w w' : state R C Domain) (r : outcome (ndarray R)) :
  coeff' w = (w', r) →
  self w' = self w ∧ next w' = next w ∧ heap w' = heap w
  ∧ match _filter (self w) with
    | None => w' = w ∧ ∃ msg, r = Raised (AttributeError msg)
    | Some f =>
        (∀ msg, r ≠ Raised (AttributeError msg))
        ∧ calls w' = calls w ++ [FrequencyToReal f true]
        ∧ (∀ a, r = Returned a →
             ∃ k c rest, _frequency_2_real f true = inr k
                         ∧ shape k = c :: rest ∧ 0 < c
                         ∧ shape a = rest
                         ∧ data a = take (numel rest) (data k))
    end.
Proof.
  unfold coeff, filter_result, get_self, log, lift, raise.
  unfold mbind, method_bind. cbn [self heap next calls].
  destruct (_filter (self w)) as [f|]; [|intros [= <- <-]; eauto 10].
  destruct (_frequency_2_real f true) as [msg|k].
  { intros [= <- <-]. repeat split; try done. }
  unfold subarray. cbn [length]. case_decide as Hv.
  - intros [= <- <-]. cbn [self heap next calls]. repeat split; try done.
    intros a [= <-]. cbn [shape data].
    destruct (shape k) as [|c rest] eqn:Hk; [by inversion Hv|].
    exists k, c, rest. cbn in Hv. rewrite take_0 in Hv.
    apply Forall2_cons_1 in Hv as [Hc _].
    repeat split; try done.
  - intros [= <- <-]. repeat split; try done.
Qed.

Lemma resize_coeff_run_any (size : list nat) (w w' : state R C Domain)
    (r : outcome unit) :
  resize_coeff' size w = (w', r) →
  basis (self w') = basis (self w)
  ∧ n_states (self w') = n_states (self w)
  ∧ domain (self w') = domain (self w)
  ∧ n_jobs (self w') = n_jobs (self w)
  ∧ heap w' = heap w ∧ next w' = next w
  ∧ match _filter (self w) with
    | None => w' = w ∧ ∃ msg, r = Raised (AttributeError msg)
    | Some f =>
        (∀ msg, r ≠ Raised (AttributeError msg))
        ∧ calls w' = calls w ++ [Resize f size]
        ∧ match resize f size with
          | inr f' => r = Returned tt ∧ _filter (self w') = Some f'
          | inl msg => r = Raised (FilterError msg)
                       ∧ _filter (self w') = Some f
          end
    end.
Proof.
  unfold resize_coeff, filter_result, get_self, log, lift, raise, set_filter.
  unfold mbind, method_bind. cbn [self heap next calls].
  destruct (_filter (self w)) as [f|] eqn:Hf; [|intros [= <- <-]; eauto 10].
  destruct (resize f size) as [msg|f'].
  - intros [= <- <-]. cbn. repeat split; try done.
  - intros [= <- <-]. cbn. repeat split; try done.
Qed.

(** X12: [predict] never changes the model's attributes and never
    allocates; the only basis instance it can touch is the model's own;
    and what it returns has the shape of its argument. *)
Lemma predict_frame (X : ndarray R) (w w' : state R C Domain)
    (r : outcome (ndarray R)) :
  predict' X w = (w', r) →
  self w' = self w
  ∧ next w' = next w
  ∧ (∀ l, l ≠ basis (self w) → heap w' l = heap w l)
  ∧ (∀ y, r = Returned y → shape y = shape X).
Proof.
  intros (Hself & Hnext & Hheap & Hr)%predict_run. repeat split; try done.
  intros y ->. destruct (_filter (self w)); [by apply Hr|].
  by destruct Hr as [_ ?].
Qed.

(** X13: after a [fit] that returned, the model has its [_filter], built
    on the model's own basis; so [predict] does not raise its
    [AttributeError("fit() method must be run before predict().")], and
    [coeff] and [resize_coeff] do not fail for a missing [_filter]
    attribute. *)
Lemma fit_enables_methods (X y : ndarray R) (size : option (list nat))
    (w w' : state R C Domain) :
  fit' X y size w = (w', Returned tt) →
  (∃ f, _filter (self w') = Some f ∧ f_basis f = basis (self w'))
  ∧ (∀ X2, (predict' X2 w').2
           ≠ Raised (AttributeError
                       "fit() method must be run before predict()."))
  ∧ (coeff' w').2
      ≠ Raised (AttributeError
                  "'MKSLocalizationModel' object has no attribute '_filter'")
  ∧ (∀ size2, (resize_coeff' size2 w').2
              ≠ Raised (AttributeError
                          "'MKSLocalizationModel' object has no attribute '_filter'")).
Proof.
  intros (f & Hf & Hfb)%fit_sets_filter. split_and!.
  - by exists f.
  - intros X2. destruct (predict' X2 w') as [w2 r] eqn:Hrun.
    apply predict_run in Hrun as (_ & _ & _ & Hr). rewrite Hf in Hr.
    by destruct Hr as [Hr _].
  - destruct (coeff' w') as [w2 r] eqn:Hrun.
    apply coeff_run in Hrun as (_ & _ & _ & Hr). rewrite Hf in Hr.
    by destruct Hr as [Hr _].
  - intros size2. destruct (resize_coeff' size2 w') as [w2 r] eqn:Hrun.
    apply resize_coeff_run_any in Hrun as (_ & _ & _ & _ & _ & _ & Hr).
    rewrite Hf in Hr. by destruct Hr as [Hr _].
Qed.

(** X14: [coeff] leaves the model and the store as they are, and what it
    returns is the first entry along the sample axis of the real-space
    kernel the filter computes: its shape is the kernel's without the
    sample axis, its buffer the first block of the kernel's. *)
Lemma coeff_first_sample (w w' : state R C Domain) (a : ndarray R) :
  coeff' w = (w', Returned a) →
  self w' = self w ∧ heap w' = heap w ∧ next w' = next w
  ∧ ∃ f k c rest,
      _filter (self w) = Some f
      ∧ _frequency_2_real f true = inr k
      ∧ shape k = c :: rest ∧ 0 < c
      ∧ shape a = rest
      ∧ data a = take (numel rest) (data k).
Proof.
  intros (Hself & Hnext & Hheap & Hr)%coeff_run. repeat split; try done.
  destruct (_filter (self w)) as [f|].
  - destruct Hr as (_ & _ & Hr).
    destruct (Hr a eq_refl) as (k & c & rest & Hk & Hs & Hc & Ha & Hd).
    by exists f, k, c, rest.
  - by destruct Hr as [_ [msg ?]].
Qed.

(** X15: [resize_coeff] touches nothing but [_filter]: the other
    attributes and the store are as before; without a filter it raises
    [AttributeError] and changes nothing at all, and when the filter's
    resize fails the filter stays. *)
Lemma resize_coeff_frame (size : list nat) (w w' : state R C Domain)
    (r : outcome unit) :
  resize_coeff' size w = (w', r) →
  basis (self w') = basis (self w)
  ∧ n_states (self w') = n_states (self w)
  ∧ domain (self w') = domain (self w)
  ∧ n_jobs (self w') = n_jobs (self w)
  ∧ heap w' = heap w ∧ next w' = next w
  ∧ (_filter (self w) = None →
       w' = w ∧ ∃ msg, r = Raised (AttributeError msg))
  ∧ (∀ e, r = Raised e → _filter (self w') = _filter (self w)).
Proof.
  intros (Hb & Hn & Hd & Hj & Hh & Hnext & Hr)%resize_coeff_run_any.
  split_and!; try done.
  - intros Hnone. by rewrite Hnone in Hr.
  - intros e ->. destruct (_filter (self w)) as [f|] eqn:Hf.
    + destruct Hr as (_ & _ & Hr). destruct (resize f size) as [msg|f'].
      * by destruct Hr as [_ ->].
      * by destruct Hr as [? _].
    + destruct Hr as [-> _]. by rewrite Hf.
Qed.

End UseProperties.

(** ** The further properties on concrete runs *)

Lemma fit_kernel_shape_witness :
  shape (mk_ndarray [2; 2] [7; 7; 7; 0]%Z)
    = tuple_from1 (shape Example.FX122)
  ∧ wf (mk_ndarray [2; 2] [7; 7; 7; 0]%Z).
Proof.
  apply (fit_kernel_shape 0%Z Example._get_basis_slice Example.lstsq
           (Example.heap0 0) Example.FX122 Example.Fy12).
  vm_compute. reflexivity.
Defined.

Lemma fit_kernel_empty_grid_witness :
  fit_kernel 0%Z Example._get_basis_slice Example.lstsq (Example.heap0 0)
    (mk_ndarray [1; 0; 2] []) (mk_ndarray [1; 0] [])
  = Returned (zeros 0%Z ([0] ++ [2])).
Proof.
  apply (fit_kernel_empty_grid 0%Z Example._get_basis_slice Example.lstsq
           (Example.heap0 0) (mk_ndarray [1; 0; 2] []) (mk_ndarray [1; 0] [])
           1 2 [0]).
  - reflexivity.
  - by left.
Defined.

Lemma fit_without_size_checks_witness :
  Example.fit Example.X122 Example.y4 None Example.w0
  = (recreated Example.w0,
     Raised (RuntimeError "The shape of y is incorrect.")).
Proof.
  apply (proj1 (fit_without_size_checks 0%Z Example.discretize Example._fftn
                  Example._get_basis_slice Example.lstsq
                  Example.X122 Example.y4 Example.w0)).
  vm_compute. lia.
Defined.

Lemma fit_keeps_parameters_witness :
  n_states (self (Example.fit Example.X122 Example.X122 None Example.w0).1)
    = n_states (self Example.w0).
Proof.
  refine (proj1 (fit_keeps_parameters 0%Z Example.discretize Example._fftn
                   Example._get_basis_slice Example.lstsq
                   Example.X122 Example.X122 None Example.w0 _
                   (Returned tt) _)).
  vm_compute. reflexivity.
Defined.

Lemma fit_calls_in_order_witness :
  ∃ X' y' X_,
    reshape_inputs Example.X122 Example.X122 None = Returned (X', y')
    ∧ (Example.discretize (heap (recreated Example.w0) (next Example.w0)) X').2
        = inr X_
    ∧ calls (Example.fit Example.X122 Example.X122 None Example.w0).1 =
        calls Example.w0
        ++ [NewBasis
              (b_class (heap Example.w0 (basis (self Example.w0))))
              (n_states (self Example.w0)) (domain (self Example.w0))
              (next Example.w0);
            Discretize (next Example.w0) X';
            Fftn (next Example.w0) X_ (n_jobs (self Example.w0));
            Fftn (next Example.w0) y' (n_jobs (self Example.w0))].
Proof.
  apply (fit_calls_in_order 0%Z Example.discretize Example._fftn
           Example._get_basis_slice Example.lstsq
           Example.X122 Example.X122 None Example.w0).
  vm_compute. reflexivity.
Defined.

Lemma predict_frame_witness :
  self (predict Example.discretize Example.convolve
          (mk_ndarray [1; 2] [5; 6]%Z) Example.w_fitted).1
    = self Example.w_fitted.
Proof.
  refine (proj1 (predict_frame Example.discretize Example.convolve
                   (mk_ndarray [1; 2] [5; 6]%Z) Example.w_fitted _
                   (predict Example.discretize Example.convolve
                      (mk_ndarray [1; 2] [5; 6]%Z) Example.w_fitted).2 _)).
  vm_compute. reflexivity.
Defined.

Lemma fit_enables_methods_witness :
  (coeff (FilterModel._frequency_2_real (λ k, k))
     (Example.fit Example.X122 Example.X122 None Example.w0).1).2
    ≠ Raised (AttributeError
                "'MKSLocalizationModel' object has no attribute '_filter'").
Proof.
  refine (proj1 (proj2 (proj2
            (fit_enables_methods 0%Z Example.discretize Example._fftn
               Example._get_basis_slice Example.lstsq Example.convolve
               (FilterModel._frequency_2_real (λ k, k))
               (FilterModel.resize 0%Z (λ k, k) (λ k, k))
               Example.X122 Example.X122 None Example.w0 _ _)))).
  vm_compute. reflexivity.
Defined.

Lemma coeff_first_sample_witness :
  self (coeff (FilterModel._frequency_2_real (λ k, k)) Example.w_fitted).1
    = self Example.w_fitted.
Proof.
  refine (proj1 (coeff_first_sample (FilterModel._frequency_2_real (λ k, k))
                   Example.w_fitted _ (mk_ndarray [2; 1] [3; 4]%Z) _)).
  vm_compute. reflexivity.
Defined.

Lemma resize_coeff_frame_witness :
  basis (self (resize_coeff (FilterModel.resize 0%Z (λ k, k) (λ k, k)) [4]
                 Example.w_fitted).1)
    = basis (self Example.w_fitted).
Proof.
  refine (proj1 (resize_coeff_frame (FilterModel.resize 0%Z (λ k, k) (λ k, k))
                   [4] Example.w_fitted _ (Returned tt) _)).
  vm_compute. reflexivity.
Defined.
